(** * run_gemma_rag.py: the query runner, the interactive loop and the entry point

    A shallow embedding of [run_gemma_rag.py] and the properties of its
    command-line behaviour.

    - Python [str] values are sequences of Unicode code points ([list N]).
    - The dictionary built by [execute_workflow] is an insertion-ordered
      association list of Python values.
    - [print], [input], [time.time] and [sys.exit] act on an explicit
      [world]: the lines waiting on standard input, what was written to
      standard output, and a schedule saying which primitive call (if any)
      raises instead of completing (an interrupt signal, an I/O error).
    - [while True] is [ITree.iter]: the loop has no bound, and on an
      exhausted standard input it really runs forever. *)

From Stdlib Require Import List NArith ZArith String Ascii Bool Lia.
From Stdlib Require DecimalString.
From ITree Require Import ITree ITreeFacts.
From Paco Require Import paco.
Import ListNotations.

Set Warnings "-register-all".

(* ===================================================================== *)
(** ** Python strings                                                     *)
(* ===================================================================== *)

Module PyStr.

(** A Python [str]: a sequence of code points. *)
Definition str := list N.

Definition str_eq_dec : forall a b : str, {a = b} + {a <> b} :=
  list_eq_dec N.eq_dec.

(** Decoding of the UTF-8 bytes of a literal of this file into code points,
    so that the literals below are the ones of the Python source. *)
Fixpoint utf8 (bs : list N) : str :=
  match bs with
  | [] => []
  | b0 :: t0 =>
    if (b0 <? 0x80)%N then b0 :: utf8 t0
    else match t0 with
    | [] => [b0]
    | b1 :: t1 =>
      if (b0 <? 0xE0)%N then
        N.lor (N.shiftl (N.land b0 0x1F) 6) (N.land b1 0x3F) :: utf8 t1
      else match t1 with
      | [] => [b0; b1]
      | b2 :: t2 =>
        if (b0 <? 0xF0)%N then
          N.lor (N.shiftl (N.land b0 0x0F) 12)
            (N.lor (N.shiftl (N.land b1 0x3F) 6) (N.land b2 0x3F)) :: utf8 t2
        else match t2 with
        | [] => [b0; b1; b2]
        | b3 :: t3 =>
          N.lor (N.shiftl (N.land b0 0x07) 18)
            (N.lor (N.shiftl (N.land b1 0x3F) 12)
              (N.lor (N.shiftl (N.land b2 0x3F) 6) (N.land b3 0x3F))) :: utf8 t3
        end
      end
    end
  end.

(** A string literal of the source. *)
Definition u (s : string) : str :=
  utf8 (List.map N_of_ascii (list_ascii_of_string s)).

(** The characters a Rocq literal cannot hold directly. *)
Definition nl : str := [10%N].       (* "\n" *)
Definition dq : str := [34%N].       (* the double quote *)

(** [sep.join(parts)] *)
Fixpoint join (sep : str) (parts : list str) : str :=
  match parts with
  | [] => []
  | [p] => p
  | p :: rest => p ++ sep ++ join sep rest
  end.

(** [s * n] *)
Definition times (s : str) (n : nat) : str := List.concat (List.repeat s n).

(** [str(n)] for an [int]. *)
Definition str_of_int (n : Z) : str :=
  u (DecimalString.NilZero.string_of_int (Z.to_int n)).

(** [x in xs] for a list of strings. *)
Definition mem (x : str) (xs : list str) : bool :=
  if in_dec str_eq_dec x xs then true else false.

(** [str.isspace] on one code point: CPython's [_PyUnicode_IsWhitespace]. *)
Definition isspace (c : N) : bool :=
  ((0x09 <=? c) && (c <=? 0x0D) || (0x1C <=? c) && (c <=? 0x20)
   || (c =? 0x85) || (c =? 0xA0) || (c =? 0x1680)
   || (0x2000 <=? c) && (c <=? 0x200A)
   || (c =? 0x2028) || (c =? 0x2029) || (c =? 0x202F)
   || (c =? 0x205F) || (c =? 0x3000))%N.

Fixpoint lstrip (s : str) : str :=
  match s with
  | [] => []
  | c :: t => if isspace c then lstrip t else s
  end.

Definition rstrip (s : str) : str := rev (lstrip (rev s)).

(** [s.strip()]: leading and trailing whitespace removed. *)
Definition strip (s : str) : str := rstrip (lstrip s).

Definition is_ascii (c : N) : bool := (c <? 0x80)%N.

Definition ascii_lower (c : N) : N :=
  if ((0x41 <=? c) && (c <=? 0x5A))%N then (c + 0x20)%N else c.

(** [s.lower()].  On an all-ASCII string CPython lowers A-Z and nothing
    else; any other string goes through the interpreter's Unicode tables,
    which are not part of the program: [unicode_lower] stands for them. *)
Definition lower (unicode_lower : str -> str) (s : str) : str :=
  if forallb is_ascii s then List.map ascii_lower s else unicode_lower s.

End PyStr.
Import PyStr.

(* ===================================================================== *)
(** ** Python values and [json.dumps]                                     *)
(* ===================================================================== *)

Module Json.

(** The Python values the program builds.  A [dict] keeps its keys in
    insertion order, and [json.dumps] writes them in that order. *)
Inductive pyval :=
| PyStr (s : str)
| PyInt (n : Z)
| PyDict (items : list (str * pyval)).

(** [d.get(k)]: the first binding of [k]. *)
Fixpoint lookup {V : Type} (k : str) (items : list (str * V)) : option V :=
  match items with
  | [] => None
  | (k', v) :: rest => if str_eq_dec k k' then Some v else lookup k rest
  end.

(** The code point of the hexadecimal digit [d] (lower case, as [%x]). *)
Definition hex_digit (d : N) : N :=
  if (d <? 10)%N then (48 + d)%N else (87 + d)%N.

(** The [k] low hexadecimal digits of [n], most significant first. *)
Fixpoint hex_digits (k : nat) (n : N) : str :=
  match k with
  | O => []
  | S k' => hex_digits k' (n / 16)%N ++ [hex_digit (n mod 16)%N]
  end.

(** ['{0:04x}'.format(n)]: the digits of [n], padded with zeros to four. *)
Definition format_04x (n : N) : str :=
  hex_digits (Nat.max 4 (S (N.to_nat (N.log2 n / 4)))) n.

Definition backslash : N := 0x5C%N.

(** [json.encoder]'s replacement of one character under [ensure_ascii]:
    the short escapes of [ESCAPE_DCT], printable ASCII unchanged, and a
    [\uXXXX] escape (a surrogate pair above the basic plane) otherwise. *)
Definition escape_char (c : N) : str :=
  if (c =? backslash)%N then [backslash; backslash]
  else if (c =? 0x22)%N then [backslash; 0x22%N]
  else if (c =? 0x08)%N then backslash :: u "b"
  else if (c =? 0x0C)%N then backslash :: u "f"
  else if (c =? 0x0A)%N then backslash :: u "n"
  else if (c =? 0x0D)%N then backslash :: u "r"
  else if (c =? 0x09)%N then backslash :: u "t"
  else if ((0x20 <=? c) && (c <=? 0x7E))%N then [c]
  else if (c <? 0x10000)%N then backslash :: u "u" ++ format_04x c
  else
    let n := (c - 0x10000)%N in
    let s1 := N.lor 0xD800 (N.land (N.shiftr n 10) 0x3FF) in
    let s2 := N.lor 0xDC00 (N.land n 0x3FF) in
    backslash :: u "u" ++ format_04x s1 ++ backslash :: u "u" ++ format_04x s2.

(** [encode_basestring_ascii(s)] *)
Definition encode_basestring_ascii (s : str) : str :=
  dq ++ flat_map escape_char s ++ dq.

(** [json.dumps(v, indent=indent)] at nesting [level]: the items of a
    non-empty dict each on a line of their own, indented by
    [indent * (level + 1)] spaces, separated by [","], key and value
    separated by [": "]. *)
Fixpoint dumps_at (indent level : nat) (v : pyval) : str :=
  match v with
  | PyStr s => encode_basestring_ascii s
  | PyInt n => str_of_int n
  | PyDict [] => u "{}"
  | PyDict items =>
    let newline_indent := nl ++ times (u " ") (indent * S level) in
    u "{" ++ newline_indent
      ++ join (u "," ++ newline_indent)
           (List.map (fun kv => encode_basestring_ascii (fst kv) ++ u ": "
                                  ++ dumps_at indent (S level) (snd kv)) items)
      ++ nl ++ times (u " ") (indent * level) ++ u "}"
  end.

Definition dumps (v : pyval) (indent : nat) : str := dumps_at indent 0 v.

End Json.
Import Json.

(* ===================================================================== *)
(** ** A JSON decoder                                                     *)
(* ===================================================================== *)

(** The reader of the program's output: a decoder for the grammar of
    RFC 8259 (objects, arrays, strings with their escapes, numbers and the
    three literals).  As Python's [json.loads] does, it joins an escaped
    surrogate pair into one code point and lets a lone surrogate stand. *)
Module Decoder.

Inductive json :=
| JNull
| JBool (b : bool)
| JNumber (mantissa exponent : Z)      (* mantissa * 10 ^ exponent *)
| JString (s : str)
| JArray (elements : list json)
| JObject (members : list (str * json)).

Definition is_ws (c : N) : bool :=
  ((c =? 0x20) || (c =? 0x09) || (c =? 0x0A) || (c =? 0x0D))%N.

Fixpoint skip_ws (s : str) : str :=
  match s with
  | c :: t => if is_ws c then skip_ws t else s
  | [] => []
  end.

Definition hexval (c : N) : option N :=
  if ((0x30 <=? c) && (c <=? 0x39))%N then Some (c - 0x30)%N
  else if ((0x61 <=? c) && (c <=? 0x66))%N then Some (c - 0x57)%N
  else if ((0x41 <=? c) && (c <=? 0x46))%N then Some (c - 0x37)%N
  else None.

Definition hexval4 (a b c d : N) : option N :=
  match hexval a, hexval b, hexval c, hexval d with
  | Some x, Some y, Some z, Some w => Some (((x * 16 + y) * 16 + z) * 16 + w)%N
  | _, _, _, _ => None
  end.

Definition is_high (c : N) : bool := ((0xD800 <=? c) && (c <=? 0xDBFF))%N.
Definition is_low (c : N) : bool := ((0xDC00 <=? c) && (c <=? 0xDFFF))%N.

Definition pair_up (hi lo : N) : N :=
  (0x10000 + N.lor (N.shiftl (hi - 0xD800) 10) (lo - 0xDC00))%N.

(** The character a one-letter escape stands for. *)
Definition short_escape (e : N) : option N :=
  if (e =? 0x22)%N then Some 0x22%N
  else if (e =? backslash)%N then Some backslash
  else if (e =? 0x2F)%N then Some 0x2F%N
  else if (e =? 0x62)%N then Some 0x08%N
  else if (e =? 0x66)%N then Some 0x0C%N
  else if (e =? 0x6E)%N then Some 0x0A%N
  else if (e =? 0x72)%N then Some 0x0D%N
  else if (e =? 0x74)%N then Some 0x09%N
  else None.

Definition push (c : N) (r : option (str * str)) : option (str * str) :=
  match r with
  | Some (s, rest) => Some (c :: s, rest)
  | None => None
  end.

(** The characters of a string after its opening quote, up to and
    including the closing quote: the decoded string and what follows. *)
Fixpoint scan_string (s : str) : option (str * str) :=
  match s with
  | [] => None
  | c :: t =>
    if (c =? 0x22)%N then Some ([], t)
    else if (c =? backslash)%N then
      match t with
      | [] => None
      | e :: t1 =>
        if (e =? 0x75)%N then
          match t1 with
          | h1 :: h2 :: h3 :: h4 :: t2 =>
            match hexval4 h1 h2 h3 h4 with
            | None => None
            | Some uni =>
              let alone := push uni (scan_string t2) in
              if is_high uni then
                match t2 with
                | b :: v :: t3 =>
                  if ((b =? backslash) && (v =? 0x75))%N then
                    match t3 with
                    | l1 :: l2 :: l3 :: l4 :: t4 =>
                      match hexval4 l1 l2 l3 l4 with
                      | None => None
                      | Some uni2 =>
                        if is_low uni2
                        then push (pair_up uni uni2) (scan_string t4)
                        else alone
                      end
                    | _ => None
                    end
                  else alone
                | _ => alone
                end
              else alone
            end
          | _ => None
          end
        else
          match short_escape e with
          | Some x => push x (scan_string t1)
          | None => None
          end
      end
    else if (c <? 0x20)%N then None
    else push c (scan_string t)
  end.

Definition is_digit (c : N) : bool := ((0x30 <=? c) && (c <=? 0x39))%N.

(** A run of digits: its value on top of [acc], how many there were, and
    what follows. *)
Fixpoint scan_digits (acc : Z) (count : nat) (s : str) : Z * nat * str :=
  match s with
  | c :: t =>
    if is_digit c then scan_digits (acc * 10 + Z.of_N (c - 0x30)) (S count) t
    else (acc, count, s)
  | [] => (acc, count, s)
  end.

(** [number = [ "-" ] int [ frac ] [ exp ]] *)
Definition scan_number (s : str) : option (json * str) :=
  let (neg, s1) :=
    match s with
    | c :: t => if (c =? 0x2D)%N then (true, t) else (false, s)
    | [] => (false, s)
    end in
  match s1 with
  | [] => None
  | d :: _ =>
    if negb (is_digit d) then None
    else
      let '(ip, n, s2) := scan_digits 0 0 s1 in
      if ((d =? 0x30)%N && (1 <? n)%nat) then None
      else
        let frac :=
          match s2 with
          | c :: t =>
            if (c =? 0x2E)%N then
              let '(m, k, s3) := scan_digits ip 0 t in
              if (k =? 0)%nat then None else Some (m, k, s3)
            else Some (ip, O, s2)
          | [] => Some (ip, O, s2)
          end in
        match frac with
        | None => None
        | Some (m, k, s3) =>
          let sign (z : Z) := if neg then (- z)%Z else z in
          match s3 with
          | c :: t =>
            if ((c =? 0x65) || (c =? 0x45))%N then
              let (eneg, t1) :=
                match t with
                | x :: t' =>
                  if (x =? 0x2D)%N then (true, t')
                  else if (x =? 0x2B)%N then (false, t')
                  else (false, t)
                | [] => (false, t)
                end in
              let '(e, j, s4) := scan_digits 0 0 t1 in
              if (j =? 0)%nat then None
              else Some (JNumber (sign m)
                           ((if eneg then - e else e) - Z.of_nat k)%Z, s4)
            else Some (JNumber (sign m) (- Z.of_nat k)%Z, s3)
          | [] => Some (JNumber (sign m) (- Z.of_nat k)%Z, s3)
          end
        end
  end.

(** [s] starts with the literal [w]: what follows it. *)
Fixpoint after (w s : str) : option str :=
  match w, s with
  | [], _ => Some s
  | a :: w', b :: s' => if (a =? b)%N then after w' s' else None
  | _ :: _, [] => None
  end.

(** A value at the head of [s] (no leading whitespace), and the members of
    an object and the elements of an array after the first.  [fuel] bounds
    the number of values read. *)
Fixpoint scan_value (fuel : nat) (s : str) : option (json * str) :=
  match fuel with
  | O => None
  | S fuel' =>
    match s with
    | [] => None
    | c :: t =>
      if (c =? 0x7B)%N then                           (* an object *)
        match skip_ws t with
        | c1 :: t1 =>
          if (c1 =? 0x7D)%N then Some (JObject [], t1)
          else
            match scan_members fuel' (c1 :: t1) with
            | Some (ms, r) => Some (JObject ms, r)
            | None => None
            end
        | [] => None
        end
      else if (c =? 0x5B)%N then                      (* an array *)
        match skip_ws t with
        | c1 :: t1 =>
          if (c1 =? 0x5D)%N then Some (JArray [], t1)
          else
            match scan_elements fuel' (c1 :: t1) with
            | Some (es, r) => Some (JArray es, r)
            | None => None
            end
        | [] => None
        end
      else if (c =? 0x22)%N then
        match scan_string t with
        | Some (x, r) => Some (JString x, r)
        | None => None
        end
      else
        match after (u "true") s, after (u "false") s, after (u "null") s with
        | Some r, _, _ => Some (JBool true, r)
        | _, Some r, _ => Some (JBool false, r)
        | _, _, Some r => Some (JNull, r)
        | None, None, None => scan_number s
        end
    end
  end

with scan_members (fuel : nat) (s : str) : option (list (str * json) * str) :=
  match fuel with
  | O => None
  | S fuel' =>
    match s with
    | [] => None
    | q :: t =>
      if negb (q =? 0x22)%N then None
      else
        match scan_string t with
        | None => None
        | Some (k, r1) =>
          match skip_ws r1 with
          | [] => None
          | colon :: r2 =>
            if negb (colon =? 0x3A)%N then None
            else
              match scan_value fuel' (skip_ws r2) with
              | None => None
              | Some (v, r3) =>
                match skip_ws r3 with
                | [] => None
                | sep :: r4 =>
                  if (sep =? 0x7D)%N then Some ([(k, v)], r4)
                  else if (sep =? 0x2C)%N then
                    match scan_members fuel' (skip_ws r4) with
                    | Some (ms, r5) => Some ((k, v) :: ms, r5)
                    | None => None
                    end
                  else None
                end
              end
          end
        end
    end
  end

with scan_elements (fuel : nat) (s : str) : option (list json * str) :=
  match fuel with
  | O => None
  | S fuel' =>
    match scan_value fuel' s with
    | None => None
    | Some (v, r1) =>
      match skip_ws r1 with
      | [] => None
      | sep :: r2 =>
        if (sep =? 0x5D)%N then Some ([v], r2)
        else if (sep =? 0x2C)%N then
          match scan_elements fuel' (skip_ws r2) with
          | Some (es, r3) => Some (v :: es, r3)
          | None => None
          end
        else None
      end
    end
  end.

(** [json.loads(s)]: one value, whitespace around it, nothing else.  Every
    value read takes at least one character, so the length of the text is
    fuel enough. *)
Definition loads (s : str) : option json :=
  match scan_value (S (List.length s)) (skip_ws s) with
  | Some (v, rest) =>
    match skip_ws rest with
    | [] => Some v
    | _ :: _ => None
    end
  | None => None
  end.

(** What the decoder makes of the code points of a string that went
    through [\uXXXX] escapes: a high surrogate followed by a low one comes
    back as the one code point they encode. *)
Fixpoint recombine (s : str) : str :=
  match s with
  | [] => []
  | c :: t =>
    if is_high c then
      match t with
      | c2 :: t2 =>
        if is_low c2 then pair_up c c2 :: recombine t2 else c :: recombine t
      | [] => [c]
      end
    else c :: recombine t
  end.

(** The shapes an escaped character takes, as the decoder reads them. *)
Inductive escaped (c : N) : str -> Prop :=
| escaped_short e :
    short_escape e = Some c -> e <> 0x75%N ->
    escaped c [backslash; e]
| escaped_plain :
    (0x20 <= c <= 0x7E)%N -> c <> 0x22%N -> c <> backslash ->
    escaped c [c]
| escaped_unit h1 h2 h3 h4 :
    hexval4 h1 h2 h3 h4 = Some c ->
    escaped c [backslash; 0x75%N; h1; h2; h3; h4]
| escaped_pair hi lo h1 h2 h3 h4 l1 l2 l3 l4 :
    hexval4 h1 h2 h3 h4 = Some hi -> hexval4 l1 l2 l3 l4 = Some lo ->
    is_high hi = true -> is_low lo = true -> pair_up hi lo = c ->
    escaped c [backslash; 0x75%N; h1; h2; h3; h4; backslash; 0x75%N; l1; l2; l3; l4].

(** The decoded form of a Python value. *)
Fixpoint to_json (v : pyval) : json :=
  match v with
  | PyStr s => JString s
  | PyInt n => JNumber n 0
  | PyDict items => JObject (List.map (fun kv => (fst kv, to_json (snd kv))) items)
  end.

End Decoder.
Import Decoder.

(* ===================================================================== *)
(** ** The interpreter: exceptions, the world, the primitives             *)
(* ===================================================================== *)

Module Py.

(** What a statement can raise.  [KeyboardInterrupt] and [SystemExit]
    derive from [BaseException] only; [PyException cls msg] is an instance
    of a class [cls] deriving from [Exception], with [str(e) = msg]. *)
Inductive exn :=
| KeyboardInterrupt
| SystemExit (code : Z)
| PyException (cls message : str).

Inductive outcome (A : Type) :=
| Returns (a : A)
| Raises (e : exn).
Arguments Returns {A} a.
Arguments Raises {A} e.

(** The services of the interpreter that the program uses and that are
    taken as given: floating-point numbers (the readings of [time.time],
    their difference, their [.2f] formatting), the Unicode case tables
    behind [str.lower], and the [repr] of a value. *)
Class Runtime := {
  float : Type;
  float_sub : float -> float -> float;
  format_2f : float -> str;
  unicode_lower : str -> str;
  repr : pyval -> str
}.

(** What reaches standard output: a [print]ed text (followed by a newline)
    or the prompt of [input] (no newline). *)
Inductive output :=
| Printed (s : str)
| Prompt (s : str).

Section Interpreter.
Context {RT : Runtime}.

(** The environment of a run.  [stdin] holds the lines not yet read (their
    newline removed); when it is empty the input is at its end.  [stdout]
    is what was written so far, oldest first.  [ticks] counts the primitive
    calls made so far and [faults k] tells whether call number [k] raises
    instead of completing: an interrupt signal delivered at that point, or
    an error of the underlying stream.  [clock k] is the time once [k]
    primitive calls were made. *)
Record world := {
  stdin : list str;
  stdout : list output;
  ticks : nat;
  faults : nat -> option exn;
  clock : nat -> float
}.

(** A statement: from a world to an outcome and the world it leaves. *)
Definition py (A : Type) := world -> outcome A * world.

Definition ret {A} (a : A) : py A := fun w => (Returns a, w).

Definition bind {A B} (m : py A) (k : A -> py B) : py B :=
  fun w =>
    match m w with
    | (Returns a, w1) => k a w1
    | (Raises e, w1) => (Raises e, w1)
    end.

Definition raise {A} (e : exn) : py A := fun w => (Raises e, w).

(** [try: body  except ...: ...]: the clause chosen by [handlers] runs in
    the world the body left; an exception no clause names goes on. *)
Definition try_except {A} (body : py A) (handlers : exn -> option (py A)) : py A :=
  fun w =>
    match body w with
    | (Returns a, w1) => (Returns a, w1)
    | (Raises e, w1) =>
      match handlers e with
      | Some h => h w1
      | None => (Raises e, w1)
      end
    end.

(** The world after one more primitive call, after a write, after a line
    was taken from the input. *)
Definition tick (w : world) : world :=
  {| stdin := stdin w; stdout := stdout w; ticks := S (ticks w);
     faults := faults w; clock := clock w |}.

Definition emit (o : output) (w : world) : world :=
  {| stdin := stdin w; stdout := stdout w ++ [o]; ticks := ticks w;
     faults := faults w; clock := clock w |}.

Definition feed (rest : list str) (w : world) : world :=
  {| stdin := rest; stdout := stdout w; ticks := ticks w;
     faults := faults w; clock := clock w |}.

(** One primitive call: it is counted, and either the scheduled fault is
    raised or the call takes effect. *)
Definition primitive {A} (effect : world -> outcome A * world) : py A :=
  fun w =>
    match faults w (ticks w) with
    | Some e => (Raises e, tick w)
    | None => effect (tick w)
    end.

Definition write (o : output) : py unit :=
  primitive (fun w => (Returns tt, emit o w)).

(** [print(s)] *)
Definition print (s : str) : py unit := write (Printed s).

Definition EOFError : exn := PyException (u "EOFError") (u "EOF when reading a line").

Definition readline : py str :=
  primitive (fun w =>
    match stdin w with
    | [] => (Raises EOFError, w)
    | line :: rest => (Returns line, feed rest w)
    end).

(** [input(prompt)]: the prompt is written, then a line is read. *)
Definition input (prompt : str) : py str :=
  bind (write (Prompt prompt)) (fun _ => readline).

(** [time.time()] *)
Definition time_time : py float :=
  primitive (fun w => (Returns (clock w (ticks w)), w)).

(** [sys.exit(code)] *)
Definition sys_exit {A} (code : Z) : py A := raise (SystemExit code).

(** [d[k]] *)
Definition getitem (d : pyval) (k : str) : py pyval :=
  match d with
  | PyDict items =>
    match lookup k items with
    | Some v => ret v
    | None => raise (PyException (u "KeyError") (repr (PyStr k)))
    end
  | PyStr _ => raise (PyException (u "TypeError") (u "string indices must be integers"))
  | PyInt _ => raise (PyException (u "TypeError") (u "'int' object is not subscriptable"))
  end.

(** [f"{v}"] *)
Definition format (v : pyval) : str :=
  match v with
  | PyStr s => s
  | PyInt n => str_of_int n
  | PyDict _ => repr v
  end.

End Interpreter.

Declare Scope py_scope.
Delimit Scope py_scope with py.
Notation "x <- m ;; k" := (bind m (fun x => k))
  (at level 61, m at next level, right associativity) : py_scope.
Notation "m ;; k" := (bind m (fun _ => k))
  (at level 61, right associativity) : py_scope.

End Py.
Import Py.

(* ===================================================================== *)
(** ** The program                                                        *)
(* ===================================================================== *)

Module Program.
Section Program.
Context {RT : Runtime}.
Local Open Scope py_scope.

(** The dictionary literal of [execute_workflow]. *)
Definition workflow_result (query : str) : pyval :=
  PyDict [ (u "workflow_id", PyStr (u "gemma-rag-cascade"));
           (u "input", PyDict [(u "query", PyStr query)]);
           (u "status", PyStr (u "completed"));
           (u "nodes_executed", PyInt 13);
           (u "merkle_root", PyStr (u "4fcd7d2a62aa31a3")) ].

Definition execute_workflow (query : str) : py pyval :=
  print (nl ++ u "🔍 Query: " ++ query) ;;
  print (u "⚙️  Executing workflow...") ;;
  let result := workflow_result query in
  print (u "✓ Workflow completed") ;;
  n <- getitem result (u "nodes_executed") ;;
  print (u "✓ Nodes executed: " ++ format n ++ u "/13") ;;
  m <- getitem result (u "merkle_root") ;;
  print (u "✓ Merkle root: " ++ format m) ;;
  ret result.

(** How an iteration of [while True] ends: with [break], or by going round
    again ([continue], or the end of the body). *)
Inductive flow := Break | Continue.

Definition quit_words : list str := [u "quit"; u "exit"; u "q"].

(** Lines 67-71: the query is run and timed. *)
Definition process (query : str) : py flow :=
  start_time <- time_time ;;
  result <- execute_workflow query ;;
  now <- time_time ;;
  let elapsed := float_sub now start_time in
  print (u "⏱️  Execution time: " ++ format_2f elapsed ++ u "s") ;;
  ret Continue.

(** Lines 58-71: the body of the [try]. *)
Definition guarded : py flow :=
  line <- input (nl ++ u "💬 Your question: ") ;;
  let query := strip line in
  if mem (lower unicode_lower query) quit_words then
    print (nl ++ u "👋 Goodbye!") ;;
    ret Break
  else if match query with [] => true | _ => false end then
    ret Continue
  else
    process query.

(** Lines 73-77: the two [except] clauses. *)
Definition handlers (e : exn) : option (py flow) :=
  match e with
  | KeyboardInterrupt =>
    Some (print (nl ++ nl ++ u "👋 Goodbye!") ;; ret Break)
  | PyException _ message =>
    Some (print (nl ++ u "❌ Error: " ++ message) ;; ret Continue)
  | SystemExit _ => None
  end.

(** One iteration of the loop. *)
Definition iteration : py flow := try_except guarded handlers.

(** A statement of a program that may loop for ever. *)
Definition proc (A : Type) := world -> itree void1 (outcome A * world).

Definition run {A} (m : py A) : proc A := fun w => Ret (m w).

Definition andthen {A B} (m : py A) (k : proc B) : proc B :=
  fun w =>
    match m w with
    | (Returns _, w1) => k w1
    | (Raises e, w1) => Ret (Raises e, w1)
    end.

(** [while True: body] *)
Definition while_true (body : py flow) : proc unit :=
  ITree.iter (fun w =>
    match body w with
    | (Returns Continue, w1) => Ret (inl w1)
    | (Returns Break, w1) => Ret (inr (Returns tt, w1))
    | (Raises e, w1) => Ret (inr (Raises e, w1))
    end).

Definition banner : py unit :=
  print (times (u "=") 60) ;;
  print (u "Gemma RAG + CASCADE Interactive Mode") ;;
  print (times (u "=") 60) ;;
  print (nl ++ u "Type your questions (or 'quit' to exit)") ;;
  print (u "Each query will be processed with full provenance tracking" ++ nl).

Definition interactive_mode : proc unit :=
  andthen banner (while_true iteration).

(** The [else] branch of lines 84-87. *)
Definition single_shot (args : list str) : py unit :=
  let query := join (u " ") args in
  result <- execute_workflow query ;;
  print (nl ++ u "📊 Result: " ++ dumps result 2).

Definition usage : py unit :=
  print (u "Usage:") ;;
  print (u "  python run_gemma_rag.py " ++ dq ++ u "Your question here" ++ dq) ;;
  print (u "  python run_gemma_rag.py --interactive") ;;
  sys_exit 1.

(** [main()], with [sys.argv] as its argument. *)
Definition main (argv : list str) : proc unit :=
  if (1 <? List.length argv)%nat then
    if mem (nth 1 argv []) [u "--interactive"; u "-i"] then
      interactive_mode
    else
      run (single_shot (skipn 1 argv))
  else
    run usage.

(** How the process ends. *)
Inductive termination :=
| Exit (status : Z)
| Traceback (e : exn).

(** The script run by the interpreter: [main()] returning is status 0,
    [SystemExit(code)] is status [code], anything else raised is reported
    by the interpreter. *)
Definition exit_of (r : outcome unit) : termination :=
  match r with
  | Returns _ => Exit 0
  | Raises (SystemExit code) => Exit code
  | Raises e => Traceback e
  end.

Definition script (argv : list str) (w : world) : itree void1 (termination * world) :=
  ITree.map (fun rw => (exit_of (fst rw), snd rw)) (main argv w).

End Program.
End Program.
Import Program.

(* ===================================================================== *)
(** ** The vocabulary of the properties                                   *)
(* ===================================================================== *)

Module Spec.
Section Spec.
Context {RT : Runtime}.

(** None of the next [n] primitive calls is faulted. *)
Definition quiet (n : nat) (w : world) : Prop :=
  forall k, ticks w <= k < ticks w + n -> faults w k = None.

(** No primitive call is faulted any more. *)
Definition calm (w : world) : Prop :=
  forall k, ticks w <= k -> faults w k = None.

(** The world [w] once [n] more primitive calls were made, [outs] were
    written, and [rest] is what remains on the input. *)
Definition after (rest : list str) (n : nat) (outs : list output) (w : world) : world :=
  {| stdin := rest; stdout := stdout w ++ outs; ticks := n + ticks w;
     faults := faults w; clock := clock w |}.

(** The five lines [execute_workflow] prints. *)
Definition progress (query : str) : list output :=
  [ Printed (nl ++ u "🔍 Query: " ++ query);
    Printed (u "⚙️  Executing workflow...");
    Printed (u "✓ Workflow completed");
    Printed (u "✓ Nodes executed: 13/13");
    Printed (u "✓ Merkle root: 4fcd7d2a62aa31a3") ].

(** [v[k]] when [v] is a dictionary that has the key. *)
Definition item (k : str) (v : pyval) : option pyval :=
  match v with
  | PyDict items => lookup k items
  | _ => None
  end.

(** A string of this embedding is a Python string when its code points are
    in the Unicode range. *)
Definition wf_str (s : str) : Prop := Forall (fun c => (c < 0x110000)%N) s.

(** What the interactive loop writes. *)
Definition prompt : output := Prompt (nl ++ u "💬 Your question: ").
Definition goodbye : output := Printed (nl ++ u "👋 Goodbye!").
Definition goodbye_interrupted : output := Printed (nl ++ nl ++ u "👋 Goodbye!").
Definition error_line (message : str) : output :=
  Printed (nl ++ u "❌ Error: " ++ message).
Definition timing_line (elapsed : float) : output :=
  Printed (u "⏱️  Execution time: " ++ format_2f elapsed ++ u "s").

(** The line, trimmed and lowercased, is one of the three words. *)
Definition says_quit (line : str) : Prop :=
  In (lower unicode_lower (strip line)) [u "quit"; u "exit"; u "q"].

(** The number of primitive calls the body of the [try] makes when none of
    them is faulted: prompt and read; then the farewell for a quit word,
    nothing for an empty line, and eight more calls (two clock readings,
    six lines) for a query.  At the end of the input the read is the last. *)
Definition guarded_calls (w : world) : nat :=
  match stdin w with
  | [] => 2
  | line :: _ =>
    let query := strip line in
    if mem (lower unicode_lower query) quit_words then 3
    else match query with
         | [] => 2
         | _ :: _ => 10
         end
  end.

(** The text [json.dumps(result, indent=2)] is expected to be, line by
    line: members indented by two spaces, the members of the nested
    dictionary by four. *)
Definition quoted (s : str) : str := dq ++ s ++ dq.

Definition result_text (query : str) : str :=
  join nl
    [ u "{";
      u "  " ++ quoted (u "workflow_id") ++ u ": " ++ quoted (u "gemma-rag-cascade") ++ u ",";
      u "  " ++ quoted (u "input") ++ u ": {";
      u "    " ++ quoted (u "query") ++ u ": " ++ encode_basestring_ascii query;
      u "  },";
      u "  " ++ quoted (u "status") ++ u ": " ++ quoted (u "completed") ++ u ",";
      u "  " ++ quoted (u "nodes_executed") ++ u ": 13,";
      u "  " ++ quoted (u "merkle_root") ++ u ": " ++ quoted (u "4fcd7d2a62aa31a3");
      u "}" ].

(** The last line of a single-shot run. *)
Definition result_line (query : str) : output :=
  Printed (nl ++ u "📊 Result: " ++ result_text query).

(** The three lines of the usage text. *)
Definition usage_lines : list output :=
  [ Printed (u "Usage:");
    Printed (u "  python run_gemma_rag.py " ++ quoted (u "Your question here"));
    Printed (u "  python run_gemma_rag.py --interactive") ].

(** Where an interrupt comes from: a statement is [traceable] when it only
    moves the call counter forward, leaves the schedule alone, and raises
    [KeyboardInterrupt] only when the schedule delivered one to a call it
    made. *)
Definition traceable {A} (m : py A) : Prop :=
  forall w r w', m w = (r, w') ->
    ticks w <= ticks w' /\ faults w' = faults w /\
    (r = Raises KeyboardInterrupt ->
     exists k, ticks w <= k < ticks w' /\ faults w k = Some KeyboardInterrupt).

End Spec.
End Spec.
Import Spec.

(* ===================================================================== *)
(** ** Concrete runs                                                      *)
(* ===================================================================== *)

(** A runtime and worlds to run the program in: times are hundredths of a
    second, there are no case tables beyond ASCII. *)
Module Demo.

Definition two_digits (n : Z) : str :=
  (if (n <? 10)%Z then u "0" else []) ++ str_of_int n.

Definition runtime : Runtime :=
  {| float := Z;
     float_sub := Z.sub;
     format_2f := fun t => str_of_int (t / 100) ++ u "." ++ two_digits (t mod 100);
     unicode_lower := fun s => s;
     repr := fun v => match v with
                      | PyStr s => u "'" ++ s ++ u "'"
                      | PyInt n => str_of_int n
                      | PyDict _ => u "{...}"
                      end |}.

(** A terminal where [lines] are typed, the [k]-th primitive call is
    answered by [fault k], and every call takes seven hundredths. *)
Definition terminal (lines : list str) (fault : nat -> option exn) : @world runtime :=
  @Build_world runtime lines [] 0 fault (fun k => (7 * Z.of_nat k)%Z : @float runtime).

Definition no_fault : nat -> option exn := fun _ => None.

Definition fault_at (n : nat) (e : exn) : nat -> option exn :=
  fun k => if (k =? n)%nat then Some e else None.

Definition prog : str := u "run_gemma_rag.py".

(** Nothing typed, nothing going wrong. *)
Definition idle : @world runtime := terminal [] no_fault.

(** A padded, upper-case quit word, and a line after it. *)
Definition quitting : @world runtime := terminal [u "  QUIT  "; u "more"] no_fault.

(** A line of spaces, and a line after it. *)
Definition blank : @world runtime := terminal [u "   "; u "next"] no_fault.

(** A query whose first progress line (call number 3, after the prompt,
    the read and the first clock reading) cannot be written. *)
Definition encoding_error : exn :=
  PyException (u "UnicodeEncodeError") (u "'ascii' codec can't encode character").

Definition garbled : @world runtime := terminal [u "hello"] (fault_at 3 encoding_error).

(** A query interrupted while the query runner prints (call number 5). *)
Definition interrupted : @world runtime :=
  terminal [u "hello"] (fault_at 5 KeyboardInterrupt).

(** The input at its end, and an interrupt arriving while the [except
    Exception] clause prints the error (call number 2, after the prompt and
    the read). *)
Definition eof_interrupted : @world runtime :=
  terminal [] (fault_at 2 KeyboardInterrupt).

(** The same under [--interactive]: the banner takes calls 0 to 4, the
    prompt and the read calls 5 and 6, the clause prints at call 7. *)
Definition eof_interrupted_session : @world runtime :=
  terminal [] (fault_at 7 KeyboardInterrupt).

End Demo.

(* ===================================================================== *)
(** ** The vocabulary of whole sessions                                   *)
(* ===================================================================== *)

Module Behaviour.
Section Behaviour.
Context {RT : Runtime}.

(** The five lines of the banner of the interactive mode. *)
Definition banner_lines : list output :=
  [ Printed (times (u "=") 60);
    Printed (u "Gemma RAG + CASCADE Interactive Mode");
    Printed (times (u "=") 60);
    Printed (nl ++ u "Type your questions (or 'quit' to exit)");
    Printed (u "Each query will be processed with full provenance tracking" ++ nl) ].

(** The primitive calls an iteration makes for a line that is not a quit
    word when nothing goes wrong (two for a blank line, ten for a query),
    and what it writes when it starts at call number [t]: the two clock
    readings of a query are calls [3 + t] and [9 + t]. *)
Definition line_calls (line : str) : nat :=
  match strip line with
  | [] => 2
  | _ :: _ => 10
  end.

Definition line_output (clock : nat -> float) (t : nat) (line : str) : list output :=
  match strip line with
  | [] => [prompt]
  | _ :: _ =>
    prompt :: progress (strip line)
      ++ [timing_line (float_sub (clock (9 + t)) (clock (3 + t)))]
  end.

Fixpoint session_calls (lines : list str) : nat :=
  match lines with
  | [] => 0
  | line :: more => line_calls line + session_calls more
  end.

Fixpoint transcript (clock : nat -> float) (t : nat) (lines : list str) : list output :=
  match lines with
  | [] => []
  | line :: more =>
    line_output clock t line ++ transcript clock (line_calls line + t) more
  end.

(** A statement stays [within calls reads] when, whatever the faults, it
    makes at most [calls] primitive calls and takes at most [reads] lines
    from the front of the input, only adds to what was written, one item
    per call at most, and leaves the schedule and the clock alone. *)
Definition within (calls reads : nat) {A} (m : py A) : Prop :=
  forall w r w', m w = (r, w') ->
    (exists read, stdin w = read ++ stdin w' /\ List.length read <= reads)
    /\ (exists outs, stdout w' = stdout w ++ outs
                     /\ List.length outs <= ticks w' - ticks w)
    /\ ticks w <= ticks w' <= calls + ticks w
    /\ faults w' = faults w /\ clock w' = clock w.

(** The last thing written is one of the two farewells. *)
Definition ends_with_farewell (outs : list output) : Prop :=
  exists before, outs = before ++ [goodbye] \/ outs = before ++ [goodbye_interrupted].

End Behaviour.

(** A visible ASCII character: from the space to the tilde. *)
Definition visible (c : N) : bool := ((0x20 <=? c) && (c <=? 0x7E))%N.

(** What a terminal limited to ASCII can show: the visible characters and
    the newline. *)
Definition plain (c : N) : bool := (c =? 0x0A)%N || visible c.

(** The number of newlines of a text. *)
Definition newlines (s : str) : nat := count_occ N.eq_dec s 0x0A%N.

(** No code point is the first half of a surrogate pair. *)
Definition no_high_surrogate (s : str) : Prop :=
  Forall (fun c => is_high c = false) s.

End Behaviour.
Import Behaviour.

(** More worlds to run the program in. *)
Module Runs.

Definition broken_pipe : exn :=
  PyException (u "BrokenPipeError") (u "[Errno 32] Broken pipe").

(** Standard output closes as the third line is written (call number 2). *)
Definition piped : @world Demo.runtime :=
  Demo.terminal [] (Demo.fault_at 2 broken_pipe).

(** A padded query, then a quit word. *)
Definition asking : @world Demo.runtime :=
  Demo.terminal [u "  What is RAG?  "; u "quit"] Demo.no_fault.

(** A query, an empty line, a quit word, and a line nobody reads. *)
Definition session : @world Demo.runtime :=
  Demo.terminal [u "hello"; u ""; u " Quit "; u "later"] Demo.no_fault.


(** A quit word whose farewell (call number 2, after the prompt and the
    read) cannot be written. *)
Definition unprintable : @world Demo.runtime :=
  Demo.terminal [u "quit"; u "hello"] (Demo.fault_at 2 Demo.encoding_error).

(** An interrupt as the second line of the banner is written (call
    number 1). *)
Definition startup_interrupted : @world Demo.runtime :=
  Demo.terminal [u "quit"] (Demo.fault_at 1 KeyboardInterrupt).

End Runs.

(* ===================================================================== *)
(** * Properties                                                          *)
(* ===================================================================== *)

(** ** Running statements in a world                                      *)

Section Steps.
Context {RT : Runtime}.

Lemma primitive_ok {A} (effect : world -> outcome A * world) w :
  faults w (ticks w) = None -> primitive effect w = effect (tick w).
Proof. unfold primitive. intros ->. reflexivity. Qed.

Lemma primitive_fault {A} (effect : world -> outcome A * world) w e :
  faults w (ticks w) = Some e -> primitive effect w = (Raises e, tick w).
Proof. unfold primitive. intros ->. reflexivity. Qed.

Lemma bind_write {B} o (k : unit -> py B) w :
  faults w (ticks w) = None ->
  bind (write o) k w = k tt (emit o (tick w)).
Proof. intros H. unfold bind, write. rewrite primitive_ok by exact H. reflexivity. Qed.

Lemma bind_time {B} (k : float -> py B) w :
  faults w (ticks w) = None ->
  bind time_time k w = k (clock w (S (ticks w))) (tick w).
Proof. intros H. unfold bind, time_time. rewrite primitive_ok by exact H. reflexivity. Qed.

Lemma bind_readline {B} (k : str -> py B) w line rest :
  faults w (ticks w) = None -> stdin w = line :: rest ->
  bind readline k w = k line (feed rest (tick w)).
Proof.
  intros H E. unfold bind, readline. rewrite primitive_ok by exact H.
  cbn. rewrite E. reflexivity.
Qed.

Lemma bind_ret {A B} (a : A) (k : A -> py B) w : bind (ret a) k w = k a w.
Proof. reflexivity. Qed.

Lemma bind_bind {A B C} (m : py A) (f : A -> py B) (g : B -> py C) w :
  bind (bind m f) g w = bind m (fun a => bind (f a) g) w.
Proof. unfold bind. destruct (m w) as [[a|e] w1]; reflexivity. Qed.

Lemma tick_after r n outs w : tick (after r n outs w) = after r (S n) outs w.
Proof. reflexivity. Qed.

Lemma emit_after o r n outs w :
  emit o (after r n outs w) = after r n (outs ++ [o]) w.
Proof. unfold emit, after. cbn. rewrite <- app_assoc. reflexivity. Qed.

Lemma feed_after r' r n outs w : feed r' (after r n outs w) = after r' n outs w.
Proof. reflexivity. Qed.

Lemma after_0 w : after (stdin w) 0 [] w = w.
Proof. destruct w. unfold after. cbn. rewrite app_nil_r. reflexivity. Qed.

End Steps.

(** [start_at w] presents the world [w] as [after (stdin w) 0 [] w];
    [quiet_tac H] finds in [H : quiet n w] that the call about to be made
    is not faulted; [step H] runs the statement at the head of the goal. *)
Ltac start_at w := rewrite <- (after_0 w) at 1.

Ltac quiet_tac H :=
  cbn [faults ticks after]; apply H; cbn [ticks]; lia.

Ltac step H :=
  first
    [ rewrite bind_write by quiet_tac H
    | rewrite bind_time by quiet_tac H
    | rewrite bind_ret
    | rewrite bind_bind ];
  rewrite ?tick_after, ?emit_after, ?feed_after; cbn [app].

Section Runner.
Context {RT : Runtime}.

Lemma bind_getitem {B} d k v (f : pyval -> py B) w :
  item k d = Some v -> bind (getitem d k) f w = f v w.
Proof.
  unfold item, getitem, bind. destruct d; try discriminate.
  intros ->. reflexivity.
Qed.

Lemma after_eq r n n' outs outs' w :
  n = n' -> outs = outs' -> after r n outs w = after r n' outs' w.
Proof. intros -> ->. reflexivity. Qed.

Lemma execute_workflow_after q r n outs w :
  quiet (n + 5) w ->
  execute_workflow q (after r n outs w)
  = (Returns (workflow_result q), after r (n + 5) (outs ++ progress q) w).
Proof.
  intros H. unfold execute_workflow, print.
  do 3 step H.
  rewrite bind_getitem with (v := PyInt 13) by reflexivity.
  step H.
  rewrite bind_getitem with (v := PyStr (u "4fcd7d2a62aa31a3")) by reflexivity.
  step H. unfold ret. f_equal. apply after_eq; [lia|].
  unfold progress. rewrite <- !app_assoc. reflexivity.
Qed.

Lemma execute_workflow_quiet q w :
  quiet 5 w ->
  execute_workflow q w
  = (Returns (workflow_result q), after (stdin w) 5 (progress q) w).
Proof.
  intros H. start_at w. apply (execute_workflow_after q (stdin w) 0 [] w H).
Qed.

(** Whatever the faults, what [execute_workflow] returns is the literal. *)
Lemma execute_workflow_returns q w r w' :
  execute_workflow q w = (Returns r, w') -> r = workflow_result q.
Proof.
  unfold execute_workflow, bind, print, write, primitive, ret.
  repeat match goal with
  | |- context [match faults ?w ?k with _ => _ end] => destruct (faults w k)
  | |- context [let (_, _) := getitem ?d ?k ?w in _] => change (getitem d k w) with (ret (A:=pyval) (PyInt 13) w) || change (getitem d k w) with (ret (A:=pyval) (PyStr (u "4fcd7d2a62aa31a3")) w); unfold ret
  end; congruence.
Qed.

End Runner.

(** ** The loop                                                           *)

Section Loop.
Context {RT : Runtime}.

Lemma while_true_unfold (body : py flow) w :
  while_true body w ≈
  match body w with
  | (Returns Continue, w1) => while_true body w1
  | (Returns Break, w1) => Ret (Returns tt, w1)
  | (Raises e, w1) => Ret (Raises e, w1)
  end.
Proof.
  unfold while_true at 1. rewrite unfold_iter.
  destruct (body w) as [[[|]|e] w1]; rewrite bind_ret_l; cbn.
  - reflexivity.
  - rewrite tau_eutt. reflexivity.
  - reflexivity.
Qed.

Lemma while_true_break (body : py flow) w w1 :
  body w = (Returns Break, w1) -> while_true body w ≈ Ret (Returns tt, w1).
Proof. intros E. rewrite while_true_unfold, E. reflexivity. Qed.

Lemma while_true_continue (body : py flow) w w1 :
  body w = (Returns Continue, w1) -> while_true body w ≈ while_true body w1.
Proof. intros E. rewrite while_true_unfold, E. reflexivity. Qed.

Lemma while_true_raise (body : py flow) w e w1 :
  body w = (Raises e, w1) -> while_true body w ≈ Ret (Raises e, w1).
Proof. intros E. rewrite while_true_unfold, E. reflexivity. Qed.

Lemma while_true_diverges (body : py flow) (P : world -> Prop) :
  (forall w, P w -> exists w1, body w = (Returns Continue, w1) /\ P w1) ->
  forall w, P w -> while_true body w ≈ ITree.spin.
Proof.
  intros step. einit. ecofix CIH. intros w Pw.
  destruct (step w Pw) as (w1 & E & Pw1).
  unfold while_true. rewrite unfold_iter, E, bind_ret_l. cbn.
  rewrite (itree_eta ITree.spin). cbn.
  etau.
Qed.

Lemma spin_never_returns {A} (t : itree void1 A) :
  t ≈ ITree.spin -> forall r, ~ (t ≈ Ret r).
Proof.
  intros D r T. rewrite D in T. symmetry in T.
  exact (eutt_Ret_spin_abs _ T).
Qed.
End Loop.

(** ** Trimming and membership                                            *)

Section Strings.

Lemma mem_In x xs : mem x xs = true <-> In x xs.
Proof. unfold mem. destruct (in_dec str_eq_dec x xs); split; auto; discriminate. Qed.

Lemma lstrip_spaces s : forallb isspace s = true -> lstrip s = [].
Proof.
  induction s as [|c t IH]; cbn [forallb lstrip]; [reflexivity|].
  intros H. apply andb_prop in H as [-> Ht]. auto.
Qed.

Lemma lstrip_nil_spaces s : lstrip s = [] -> forallb isspace s = true.
Proof.
  induction s as [|c t IH]; cbn [forallb lstrip]; [reflexivity|].
  destruct (isspace c); [auto | discriminate].
Qed.

Lemma lstrip_head s c t : lstrip s = c :: t -> isspace c = false.
Proof.
  induction s as [|d s IH]; cbn [lstrip]; [discriminate|].
  destruct (isspace d) eqn:Hd; [exact IH|].
  intros [= <- <-]. exact Hd.
Qed.

Lemma forallb_rev_true {A} (f : A -> bool) l :
  forallb f (rev l) = true -> forallb f l = true.
Proof.
  rewrite !forallb_forall. intros H x Hx. apply H, in_rev.
  rewrite rev_involutive. exact Hx.
Qed.

(** A line is empty after trimming exactly when it holds nothing but
    whitespace. *)
Lemma strip_nil_iff s : strip s = [] <-> forallb isspace s = true.
Proof.
  unfold strip, rstrip. split.
  - intros H. apply lstrip_nil_spaces.
    apply (f_equal (@rev N)) in H. rewrite rev_involutive in H. cbn [rev] in H.
    apply lstrip_nil_spaces, forallb_rev_true in H.
    destruct (lstrip s) as [|c t] eqn:E; [reflexivity|].
    apply lstrip_head in E. cbn [forallb] in H. rewrite E in H. discriminate.
  - intros H. rewrite (lstrip_spaces s H). reflexivity.
Qed.

End Strings.

(** ** One iteration on a quiet terminal                                  *)

Section Iteration.
Context {RT : Runtime}.

Lemma try_except_returns {A} (body : py A) handlers w a w1 :
  body w = (Returns a, w1) -> try_except body handlers w = (Returns a, w1).
Proof. unfold try_except. intros ->. reflexivity. Qed.

Lemma try_except_raises {A} (body : py A) handlers w e w1 h :
  body w = (Raises e, w1) -> handlers e = Some h ->
  try_except body handlers w = h w1.
Proof. unfold try_except. intros -> ->. reflexivity. Qed.

Lemma try_except_escapes {A} (body : py A) handlers w e w1 :
  body w = (Raises e, w1) -> handlers e = None ->
  try_except body handlers w = (Raises e, w1).
Proof. unfold try_except. intros -> ->. reflexivity. Qed.

Lemma bind_input {B} p (k : str -> py B) line rest n outs w :
  quiet (n + 2) w ->
  bind (input p) k (after (line :: rest) n outs w)
  = k line (after rest (S (S n)) (outs ++ [Prompt p]) w).
Proof.
  intros H. unfold input.
  rewrite bind_bind.
  rewrite bind_write by quiet_tac H.
  rewrite tick_after, emit_after.
  rewrite bind_readline with (line := line) (rest := rest) by (quiet_tac H || reflexivity).
  reflexivity.
Qed.

Lemma process_after q r n outs w :
  quiet (n + 8) w ->
  process q (after r n outs w)
  = (Returns Continue,
     after r (n + 8)
       (outs ++ progress q
             ++ [timing_line (float_sub (clock w (n + 7 + ticks w))
                                        (clock w (S n + ticks w)))]) w).
Proof.
  intros H. unfold process.
  rewrite bind_time by quiet_tac H. rewrite tick_after.
  unfold bind at 1.
  rewrite execute_workflow_after by (intros k Hk; apply H; lia).
  rewrite bind_time by quiet_tac H. rewrite tick_after.
  unfold print. rewrite bind_write by quiet_tac H.
  rewrite tick_after, emit_after. unfold ret. cbn [ticks after clock].
  f_equal. apply after_eq; [lia|].
  unfold timing_line. rewrite <- app_assoc.
  replace (S n + 5 + ticks w) with (n + 6 + ticks w) by lia.
  replace (S (n + 6 + ticks w)) with (n + 7 + ticks w) by lia.
  reflexivity.
Qed.

Lemma guarded_start w line rest :
  stdin w = line :: rest -> w = after (line :: rest) 0 [] w.
Proof. intros <-. symmetry. apply after_0. Qed.

Lemma guarded_quit w line rest :
  stdin w = line :: rest ->
  mem (lower unicode_lower (strip line)) quit_words = true ->
  quiet 3 w ->
  guarded w = (Returns Break, after rest 3 [prompt; goodbye] w).
Proof.
  intros E Q H. rewrite (guarded_start w line rest E) at 1. unfold guarded.
  rewrite bind_input by (intros k Hk; apply H; lia).
  cbn beta zeta. rewrite Q. unfold print.
  rewrite bind_write by quiet_tac H. rewrite tick_after, emit_after.
  reflexivity.
Qed.

Lemma guarded_empty w line rest :
  stdin w = line :: rest -> strip line = [] -> quiet 2 w ->
  guarded w = (Returns Continue, after rest 2 [prompt] w).
Proof.
  intros E Q H. rewrite (guarded_start w line rest E) at 1. unfold guarded.
  rewrite bind_input by (intros k Hk; apply H; lia).
  cbn beta zeta. rewrite Q. reflexivity.
Qed.

Lemma guarded_query w line rest :
  stdin w = line :: rest ->
  mem (lower unicode_lower (strip line)) quit_words = false ->
  strip line <> [] ->
  quiet 10 w ->
  guarded w
  = (Returns Continue,
     after rest 10
       (prompt :: progress (strip line)
          ++ [timing_line (float_sub (clock w (9 + ticks w)) (clock w (3 + ticks w)))])
       w).
Proof.
  intros E Q NE H. rewrite (guarded_start w line rest E) at 1. unfold guarded.
  rewrite bind_input by (intros k Hk; apply H; lia).
  cbn beta zeta. rewrite Q.
  destruct (strip line) as [|c q] eqn:S; [congruence|].
  rewrite process_after by exact H. reflexivity.
Qed.

End Iteration.

(** ** Faults: where exceptions come from and where they go              *)

Section Faults.
Context {RT : Runtime}.

Lemma traceable_ret {A} (a : A) : traceable (ret a).
Proof.
  intros w r w' [= <- <-]. repeat split; [lia | discriminate].
Qed.

Lemma traceable_raise {A} e : e <> KeyboardInterrupt -> traceable (@raise _ A e).
Proof.
  intros Ne w r w' [= <- <-]. repeat split; [lia | congruence].
Qed.

Lemma traceable_bind {A B} (m : py A) (k : A -> py B) :
  traceable m -> (forall a, traceable (k a)) -> traceable (bind m k).
Proof.
  intros Hm Hk w r w'. unfold bind.
  destruct (m w) as [[a|e] w1] eqn:E; destruct (Hm _ _ _ E) as (L1 & F1 & K1).
  - intros E2. destruct (Hk a _ _ _ E2) as (L2 & F2 & K2).
    repeat split; [lia | congruence |].
    intros R. destruct (K2 R) as (k0 & Hk0 & Fk0).
    exists k0. split; [lia | congruence].
  - intros [= <- <-]. repeat split; [lia | congruence |].
    intros R. injection R as ->. destruct (K1 eq_refl) as (k0 & Hk0 & Fk0). eauto.
Qed.

Lemma traceable_primitive {A} (effect : world -> outcome A * world) :
  (forall w r w', effect w = (r, w') ->
     ticks w' = ticks w /\ faults w' = faults w /\ r <> Raises KeyboardInterrupt) ->
  traceable (primitive effect).
Proof.
  intros He w r w'. unfold primitive.
  destruct (faults w (ticks w)) as [e|] eqn:F.
  - intros [= <- <-]. cbn. repeat split; [lia|].
    intros [= ->]. exists (ticks w). split; [lia | exact F].
  - intros E. destruct (He _ _ _ E) as (T & Fs & N). cbn in T, Fs.
    repeat split; [lia | exact Fs | congruence].
Qed.

Lemma traceable_write o : traceable (write o).
Proof.
  apply traceable_primitive. intros w r w' [= <- <-].
  repeat split; discriminate.
Qed.

Lemma traceable_readline : traceable readline.
Proof.
  apply traceable_primitive. intros w r w'.
  destruct (stdin w); intros [= <- <-]; repeat split; discriminate.
Qed.

Lemma traceable_time : traceable time_time.
Proof.
  apply traceable_primitive. intros w r w' [= <- <-].
  repeat split; discriminate.
Qed.

Lemma traceable_getitem d k : traceable (getitem d k).
Proof.
  unfold getitem. destruct d as [s|n|items].
  - apply traceable_raise. discriminate.
  - apply traceable_raise. discriminate.
  - destruct (lookup k items).
    + apply traceable_ret.
    + apply traceable_raise. discriminate.
Qed.

Ltac traceable_tac :=
  repeat first
    [ apply traceable_bind; [|intros ?]
    | apply traceable_ret | apply traceable_write | apply traceable_readline
    | apply traceable_time | apply traceable_getitem ].

Lemma traceable_execute_workflow q : traceable (execute_workflow q).
Proof. unfold execute_workflow, print. traceable_tac. Qed.

Lemma traceable_process q : traceable (process q).
Proof.
  unfold process, print. traceable_tac.
Qed.

Lemma traceable_guarded : traceable guarded.
Proof.
  unfold guarded, input, print. traceable_tac.
  destruct (mem _ _); [traceable_tac|].
  destruct (strip _); [traceable_tac | apply traceable_process].
Qed.

Lemma bind_returns_inv {A B} (m : py A) (k : A -> py B) w b w' :
  bind m k w = (Returns b, w') ->
  exists a w1, m w = (Returns a, w1) /\ k a w1 = (Returns b, w').
Proof.
  unfold bind. destruct (m w) as [[a|e] w1]; [eauto | discriminate].
Qed.

Lemma readline_returns_inv w line w1 :
  readline w = (Returns line, w1) -> exists rest, stdin w = line :: rest.
Proof.
  unfold readline, primitive. destruct (faults w (ticks w)); [discriminate|].
  cbn. destruct (stdin w) as [|l rest]; [discriminate|].
  intros [= <- _]. eauto.
Qed.

Lemma write_stdin o w r w1 : write o w = (r, w1) -> stdin w1 = stdin w.
Proof.
  unfold write, primitive. destruct (faults w (ticks w)); intros [= _ <-]; reflexivity.
Qed.

Lemma process_never_breaks q w w' : process q w <> (Returns Break, w').
Proof.
  unfold process. intros E.
  repeat (apply bind_returns_inv in E as (? & ? & _ & E)).
  discriminate.
Qed.

(** The body of the [try] ends with [break] only for a quit word. *)
Lemma guarded_break w w' :
  guarded w = (Returns Break, w') ->
  exists line rest, stdin w = line :: rest /\ says_quit line.
Proof.
  unfold guarded, input. intros E.
  apply bind_returns_inv in E as (line & w1 & I & E).
  apply bind_returns_inv in I as ([] & w0 & W & R).
  apply readline_returns_inv in R as (rest & S).
  rewrite (write_stdin _ _ _ _ W) in S.
  exists line, rest. split; [exact S|].
  destruct (mem (lower unicode_lower (strip line)) quit_words) eqn:Q.
  - apply mem_In. exact Q.
  - destruct (strip line).
    + discriminate.
    + exfalso. eapply process_never_breaks, E.
Qed.

(** An iteration ends the loop only for a quit word or an interrupt. *)
Lemma break_origin w w' :
  iteration w = (Returns Break, w') ->
  (exists line rest, stdin w = line :: rest /\ says_quit line)
  \/ (exists k, ticks w <= k < ticks w' /\ faults w k = Some KeyboardInterrupt).
Proof.
  unfold iteration, try_except.
  destruct (guarded w) as [[f|e] w1] eqn:G.
  - intros [= -> <-]. left. eapply guarded_break, G.
  - destruct (traceable_guarded _ _ _ G) as (L & F & K).
    destruct e as [|code|cls message]; cbn [handlers].
    + intros E. right. destruct (K eq_refl) as (k & Hk & Fk).
      apply bind_returns_inv in E as ([] & w2 & P & E).
      injection E as <-.
      destruct (traceable_write _ _ _ _ P) as (L2 & _).
      exists k. split; [lia | exact Fk].
    + discriminate.
    + intros E. apply bind_returns_inv in E as (? & ? & _ & E). discriminate.
Qed.

(** At the end of the input the read raises [EOFError]; the generic clause
    reports it and the loop goes round again. *)
Lemma iteration_eof w :
  stdin w = [] -> quiet 3 w ->
  iteration w
  = (Returns Continue,
     after [] 3 [prompt; error_line (u "EOF when reading a line")] w).
Proof.
  intros E H.
  assert (G : guarded w = (Raises EOFError, after [] 2 [prompt] w)).
  { rewrite <- (after_0 w) at 1. rewrite E. unfold guarded, input.
    rewrite !bind_bind. rewrite bind_write by quiet_tac H.
    rewrite tick_after, emit_after. unfold bind, readline.
    rewrite primitive_ok by quiet_tac H. reflexivity. }
  unfold iteration. erewrite try_except_raises by (exact G || reflexivity).
  unfold print. rewrite bind_write by quiet_tac H.
  rewrite tick_after, emit_after. reflexivity.
Qed.

Lemma calm_quiet n w : calm w -> quiet n w.
Proof. intros C k Hk. apply C. lia. Qed.

Lemma calm_after r n outs w : calm w -> calm (after r n outs w).
Proof. intros C k Hk. cbn in *. apply C. lia. Qed.

(** With the input at its end and no interrupt to come, the loop never
    ends. *)
Lemma loop_on_eof_diverges w :
  stdin w = [] -> calm w -> while_true iteration w ≈ ITree.spin.
Proof.
  intros E C.
  apply while_true_diverges with (P := fun w => stdin w = [] /\ calm w); [|auto].
  clear. intros w (E & C).
  eexists. split; [apply iteration_eof; [exact E | apply calm_quiet, C]|].
  split; [reflexivity | apply calm_after, C].
Qed.

Lemma bind_write_fault {B} o (k : unit -> py B) w e :
  faults w (ticks w) = Some e -> bind (write o) k w = (Raises e, tick w).
Proof. intros H. unfold bind, write. rewrite (primitive_fault _ _ _ H). reflexivity. Qed.

Lemma bind_time_fault {B} (k : float -> py B) w e :
  faults w (ticks w) = Some e -> bind time_time k w = (Raises e, tick w).
Proof. intros H. unfold bind, time_time. rewrite (primitive_fault _ _ _ H). reflexivity. Qed.

Lemma bind_readline_fault {B} (k : str -> py B) w e :
  faults w (ticks w) = Some e -> bind readline k w = (Raises e, tick w).
Proof. intros H. unfold bind, readline. rewrite (primitive_fault _ _ _ H). reflexivity. Qed.

End Faults.

Ltac fault_tac H :=
  cbn [faults ticks after]; rewrite <- H; f_equal; lia.

(** Runs the statement at the head of the goal call by call: a call the
    hypothesis [Hq] declares quiet completes, the call [Hf] declares faulted
    raises. *)
Ltac walk Hq Hf :=
  repeat first
    [ rewrite bind_bind
    | rewrite bind_ret
    | rewrite bind_write by quiet_tac Hq
    | rewrite bind_time by quiet_tac Hq
    | rewrite bind_readline with (line := _) (rest := _) by (quiet_tac Hq || reflexivity)
    | rewrite bind_getitem with (v := PyInt 13) by reflexivity
    | rewrite bind_getitem with (v := PyStr (u "4fcd7d2a62aa31a3")) by reflexivity
    | rewrite bind_write_fault with (e := KeyboardInterrupt) by fault_tac Hf
    | rewrite bind_time_fault with (e := KeyboardInterrupt) by fault_tac Hf
    | rewrite bind_readline_fault with (e := KeyboardInterrupt) by fault_tac Hf
    | progress rewrite ?tick_after, ?emit_after, ?feed_after
    | progress cbn beta zeta ].

Section Interrupt.
Context {RT : Runtime}.

(** An interrupt delivered to any of the calls the body of the [try] makes
    is raised there: the calls before it took effect, nothing after it
    did. *)
Lemma guarded_interrupted w n :
  n < guarded_calls w -> quiet n w ->
  faults w (ticks w + n) = Some KeyboardInterrupt ->
  exists rest outs,
    guarded w = (Raises KeyboardInterrupt, after rest (S n) outs w).
Proof.
  unfold guarded_calls. intros L Hq Hf.
  enough (X : exists rest outs,
             guarded (after (stdin w) 0 [] w)
             = (Raises KeyboardInterrupt, after rest (S n) outs w))
    by (rewrite after_0 in X; exact X).
  unfold guarded, input, print.
  destruct (stdin w) as [|line rest] eqn:E.
  - do 2 (destruct n as [|n]; [walk Hq Hf; eauto|]). lia.
  - destruct (mem (lower unicode_lower (strip line)) quit_words) eqn:Q.
    + do 2 (destruct n as [|n]; [walk Hq Hf; eauto|]).
      destruct n as [|n]; [|lia].
      walk Hq Hf. rewrite Q. walk Hq Hf. eauto.
    + destruct (strip line) as [|c q] eqn:S.
      * do 2 (destruct n as [|n]; [walk Hq Hf; eauto|]). lia.
      * do 2 (destruct n as [|n]; [walk Hq Hf; eauto|]).
        unfold process, execute_workflow, print.
        do 8 (destruct n as [|n];
              [walk Hq Hf; rewrite S, Q; walk Hq Hf; eauto|]).
        lia.
Qed.

End Interrupt.

(** ** What [json.dumps] writes, a JSON decoder reads                     *)

Section Escapes.
Local Open Scope N_scope.

Lemma lor_shiftl_low a b k : b < 2 ^ k -> N.lor (N.shiftl a k) b = a * 2 ^ k + b.
Proof.
  intros Hb. rewrite <- N.shiftl_mul_pow2.
  rewrite <- N.lxor_lor, <- N.add_nocarry_lxor; try reflexivity.
  all: apply N.bits_inj_0; intros i; rewrite N.land_spec.
  all: destruct (N.lt_ge_cases i k) as [L|L].
  all: try (rewrite N.shiftl_spec_low by exact L; reflexivity).
  all: destruct (N.eq_dec b 0) as [->|Nz]; [rewrite N.bits_0; apply andb_false_r|].
  all: rewrite (N.bits_above_log2 b i), andb_false_r; [reflexivity|].
  all: apply N.lt_le_trans with k; [|exact L].
  all: apply N.log2_lt_pow2; [lia | exact Hb].
Qed.

Lemma hexval_hex_digit d : d < 16 -> hexval (hex_digit d) = Some d.
Proof.
  intros Hd. unfold hexval, hex_digit.
  destruct (N.ltb_spec d 10).
  - rewrite (proj2 (N.leb_le 0x30 (48 + d))) by lia.
    rewrite (proj2 (N.leb_le (48 + d) 0x39)) by lia.
    cbn [andb]. f_equal. lia.
  - rewrite (proj2 (N.leb_gt (87 + d) 0x39)) by lia.
    rewrite andb_false_r.
    rewrite (proj2 (N.leb_le 0x61 (87 + d))) by lia.
    rewrite (proj2 (N.leb_le (87 + d) 0x66)) by lia.
    cbn [andb]. f_equal. lia.
Qed.

(** Below [0x10000] the format is four digits, and they read back. *)
Lemma format_04x_reads_back n :
  n < 0x10000 ->
  exists h1 h2 h3 h4,
    format_04x n = [h1; h2; h3; h4] /\ hexval4 h1 h2 h3 h4 = Some n.
Proof.
  intros Hn. unfold format_04x.
  assert (D : Nat.max 4 (S (N.to_nat (N.log2 n / 4))) = 4%nat).
  { assert (N.log2 n < 16).
    { destruct (N.eq_dec n 0) as [->|Nz]; [reflexivity|].
      apply N.log2_lt_pow2; [lia | exact Hn]. }
    assert (N.log2 n / 4 < 4) by (apply N.Div0.div_lt_upper_bound; lia).
    lia. }
  rewrite D. cbn [hex_digits app].
  do 4 eexists. split; [reflexivity|].
  unfold hexval4.
  assert (M : forall x, x mod 16 < 16) by (intros; apply N.mod_lt; lia).
  rewrite !hexval_hex_digit by apply M.
  f_equal.
  pose proof (N.div_mod n 16 ltac:(lia)) as E0.
  pose proof (N.div_mod (n / 16) 16 ltac:(lia)) as E1.
  pose proof (N.div_mod (n / 16 / 16) 16 ltac:(lia)) as E2.
  pose proof (N.div_mod (n / 16 / 16 / 16) 16 ltac:(lia)) as E3.
  pose proof (M n). pose proof (M (n / 16)). pose proof (M (n / 16 / 16)).
  pose proof (M (n / 16 / 16 / 16)).
  clear D M.
  generalize dependent (n mod 16). generalize dependent ((n / 16) mod 16).
  generalize dependent ((n / 16 / 16) mod 16).
  generalize dependent ((n / 16 / 16 / 16) mod 16).
  generalize dependent (n / 16 / 16 / 16 / 16).
  generalize dependent (n / 16 / 16 / 16).
  generalize dependent (n / 16 / 16). generalize dependent (n / 16).
  intros. lia.
Qed.

(** The two halves [json.dumps] computes for a code point above the basic
    plane. *)
Lemma surrogate_halves c :
  0x10000 <= c < 0x110000 ->
  exists a b,
    a < 1024 /\ b < 1024 /\ c = 0x10000 + a * 1024 + b
    /\ N.lor 0xD800 (N.land (N.shiftr (c - 0x10000) 10) 0x3FF) = 0xD800 + a
    /\ N.lor 0xDC00 (N.land (c - 0x10000) 0x3FF) = 0xDC00 + b.
Proof.
  intros Hc. set (n := c - 0x10000).
  assert (Hn : n < 0x100000) by (unfold n; lia).
  exists (n / 1024), (n mod 1024).
  assert (A : n / 1024 < 1024) by (apply N.Div0.div_lt_upper_bound; lia).
  assert (B : n mod 1024 < 1024) by (apply N.mod_lt; lia).
  pose proof (N.div_mod n 1024 ltac:(lia)) as E.
  change 0x3FF with (N.ones 10). rewrite !N.land_ones, N.shiftr_div_pow2.
  change (2 ^ 10) with 1024.
  rewrite (N.mod_small (n / 1024) 1024) by exact A.
  change 0xD800 with (N.shiftl 54 10) at 1.
  change 0xDC00 with (N.shiftl 55 10) at 1.
  rewrite !lor_shiftl_low by assumption.
  change (2 ^ 10) with 1024.
  repeat split; try assumption; unfold n in *; lia.
Qed.

Lemma pair_up_halves a b :
  a < 1024 -> b < 1024 -> pair_up (0xD800 + a) (0xDC00 + b) = 0x10000 + a * 1024 + b.
Proof.
  intros Ha Hb. unfold pair_up.
  replace (0xD800 + a - 0xD800) with a by lia.
  replace (0xDC00 + b - 0xDC00) with b by lia.
  rewrite lor_shiftl_low by exact Hb. change (2 ^ 10) with 1024. lia.
Qed.

(** Every character is written in one of the shapes the decoder reads. *)
Lemma escape_char_escaped c : c < 0x110000 -> escaped c (escape_char c).
Proof.
  intros Hc. unfold escape_char.
  destruct (N.eqb_spec c backslash) as [->|N1];
    [apply (escaped_short backslash backslash); [reflexivity | discriminate]|].
  destruct (N.eqb_spec c 0x22) as [->|N2];
    [apply (escaped_short 0x22 0x22); [reflexivity | discriminate]|].
  destruct (N.eqb_spec c 0x08) as [->|N3];
    [apply (escaped_short 0x08 0x62); [reflexivity | discriminate]|].
  destruct (N.eqb_spec c 0x0C) as [->|N4];
    [apply (escaped_short 0x0C 0x66); [reflexivity | discriminate]|].
  destruct (N.eqb_spec c 0x0A) as [->|N5];
    [apply (escaped_short 0x0A 0x6E); [reflexivity | discriminate]|].
  destruct (N.eqb_spec c 0x0D) as [->|N6];
    [apply (escaped_short 0x0D 0x72); [reflexivity | discriminate]|].
  destruct (N.eqb_spec c 0x09) as [->|N7];
    [apply (escaped_short 0x09 0x74); [reflexivity | discriminate]|].
  destruct (N.leb_spec 0x20 c) as [L|L]; cbn [andb].
  - destruct (N.leb_spec c 0x7E) as [L'|L'].
    + apply escaped_plain; [split|..]; assumption.
    + destruct (N.ltb_spec c 0x10000) as [B|B].
      * destruct (format_04x_reads_back c B) as (h1 & h2 & h3 & h4 & -> & V).
        apply (escaped_unit c h1 h2 h3 h4 V).
      * destruct (surrogate_halves c (conj B Hc)) as (a & b & Ha & Hb & E & -> & ->).
        destruct (format_04x_reads_back (0xD800 + a) ltac:(lia)) as (h1 & h2 & h3 & h4 & -> & V1).
        destruct (format_04x_reads_back (0xDC00 + b) ltac:(lia)) as (l1 & l2 & l3 & l4 & -> & V2).
        apply (escaped_pair c (0xD800 + a) (0xDC00 + b) h1 h2 h3 h4 l1 l2 l3 l4 V1 V2).
        -- unfold is_high. apply andb_true_intro. split; apply N.leb_le; lia.
        -- unfold is_low. apply andb_true_intro. split; apply N.leb_le; lia.
        -- rewrite pair_up_halves by assumption. lia.
  - destruct (N.ltb_spec c 0x10000) as [B|B]; [|lia].
    destruct (format_04x_reads_back c B) as (h1 & h2 & h3 & h4 & -> & V).
    apply (escaped_unit c h1 h2 h3 h4 V).
Qed.

Lemma scan_short e c t :
  short_escape e = Some c -> e <> 0x75 ->
  scan_string (backslash :: e :: t) = push c (scan_string t).
Proof.
  intros S Ne. cbn [scan_string].
  change (backslash =? 0x22) with false. change (backslash =? backslash) with true.
  cbn match. rewrite (proj2 (N.eqb_neq e 0x75) Ne), S. reflexivity.
Qed.

Lemma scan_plain c t :
  0x20 <= c -> c <> 0x22 -> c <> backslash ->
  scan_string (c :: t) = push c (scan_string t).
Proof.
  intros L N1 N2. cbn [scan_string].
  rewrite (proj2 (N.eqb_neq c 0x22) N1), (proj2 (N.eqb_neq c backslash) N2).
  rewrite (proj2 (N.ltb_ge c 0x20) L). reflexivity.
Qed.

Lemma scan_unit h1 h2 h3 h4 uni t :
  hexval4 h1 h2 h3 h4 = Some uni -> is_high uni = false ->
  scan_string (backslash :: 0x75 :: h1 :: h2 :: h3 :: h4 :: t)
  = push uni (scan_string t).
Proof.
  intros V H. cbn [scan_string].
  change (backslash =? 0x22) with false. change (backslash =? backslash) with true.
  change (0x75 =? 0x75) with true. cbn match. rewrite V, H. reflexivity.
Qed.

Lemma scan_pair h1 h2 h3 h4 l1 l2 l3 l4 hi lo t :
  hexval4 h1 h2 h3 h4 = Some hi -> hexval4 l1 l2 l3 l4 = Some lo ->
  is_high hi = true -> is_low lo = true ->
  scan_string (backslash :: 0x75 :: h1 :: h2 :: h3 :: h4
                 :: backslash :: 0x75 :: l1 :: l2 :: l3 :: l4 :: t)
  = push (pair_up hi lo) (scan_string t).
Proof.
  intros V1 V2 H L. cbn [scan_string].
  change (backslash =? 0x22) with false. change (backslash =? backslash) with true.
  change (0x75 =? 0x75) with true. cbn match. rewrite V1, H.
  cbn [andb]. rewrite V2, L. reflexivity.
Qed.

(** A high surrogate written as [\uXXXX] stays alone when what follows is
    not the escape of a low surrogate. *)
Lemma scan_high_alone h1 h2 h3 h4 uni t :
  hexval4 h1 h2 h3 h4 = Some uni ->
  match t with
  | b :: v :: t3 =>
    (b =? backslash) && (v =? 0x75) = false
    \/ exists l1 l2 l3 l4 t4 uni2,
         t3 = l1 :: l2 :: l3 :: l4 :: t4
         /\ hexval4 l1 l2 l3 l4 = Some uni2 /\ is_low uni2 = false
  | _ => True
  end ->
  scan_string (backslash :: 0x75 :: h1 :: h2 :: h3 :: h4 :: t)
  = push uni (scan_string t).
Proof.
  intros V A. cbn [scan_string].
  change (backslash =? 0x22) with false. change (backslash =? backslash) with true.
  change (0x75 =? 0x75) with true. cbn match. rewrite V.
  destruct (is_high uni); [|reflexivity].
  destruct t as [|b [|v t3]]; try reflexivity.
  destruct A as [-> | (l1 & l2 & l3 & l4 & t4 & uni2 & -> & V2 & L)]; [reflexivity|].
  destruct ((b =? backslash) && (v =? 0x75)); [|reflexivity].
  rewrite V2, L. reflexivity.
Qed.

Lemma short_escape_ascii e c : short_escape e = Some c -> c < 0x80.
Proof.
  unfold short_escape.
  repeat match goal with
         | |- context [if ?b then _ else _] => destruct b
         end; intros [= <-]; reflexivity.
Qed.

Lemma ascii_not_surrogate c : c < 0x80 -> is_high c = false /\ is_low c = false.
Proof.
  intros H. unfold is_high, is_low.
  rewrite (proj2 (N.leb_gt 0xD800 c)), (proj2 (N.leb_gt 0xDC00 c)) by lia.
  split; reflexivity.
Qed.

Lemma pair_up_not_surrogate hi lo :
  is_high (pair_up hi lo) = false /\ is_low (pair_up hi lo) = false.
Proof.
  unfold is_high, is_low, pair_up.
  rewrite (proj2 (N.leb_gt _ 0xDBFF)), (proj2 (N.leb_gt _ 0xDFFF)) by lia.
  rewrite !andb_false_r. split; reflexivity.
Qed.

Lemma high_not_low c : is_high c = true -> is_low c = false.
Proof.
  unfold is_high, is_low. intros H. apply andb_prop in H as [_ H].
  apply N.leb_le in H. rewrite (proj2 (N.leb_gt 0xDC00 c)) by lia. reflexivity.
Qed.

Lemma scan_escaped_bounded n :
  forall q, (List.length q <= n)%nat -> Forall (fun c => c < 0x110000) q ->
  forall rest,
    scan_string (flat_map escape_char q ++ 0x22 :: rest) = Some (recombine q, rest).
Proof.
  induction n as [|n IH]; intros q Len Wf rest.
  { destruct q; [reflexivity | cbn in Len; lia]. }
  destruct q as [|c q1]; [reflexivity|].
  cbn [List.length] in Len. inversion Wf as [|? ? Hc Wf1]; subst.
  pose proof (IH q1 ltac:(lia) Wf1 rest) as IH1.
  pose proof (escape_char_escaped c Hc) as E.
  cbn [flat_map]. rewrite <- app_assoc.
  remember (escape_char c) as ec eqn:Eec. clear Eec.
  destruct E as [e S Ne | L N1 N2 | h1 h2 h3 h4 V
                | hi lo h1 h2 h3 h4 l1 l2 l3 l4 V1 V2 H L P].
  - (* a short escape *)
    cbn [app]. rewrite (scan_short _ _ _ S Ne), IH1.
    destruct (ascii_not_surrogate c (short_escape_ascii e c S)) as [Hh _].
    cbn [recombine push]. rewrite Hh. reflexivity.
  - (* a printable character *)
    cbn [app]. rewrite (scan_plain _ _ (proj1 L) N1 N2), IH1.
    cbn [recombine push].
    replace (is_high c) with false
      by (unfold is_high; rewrite (proj2 (N.leb_gt 0xD800 c)) by lia; reflexivity).
    reflexivity.
  - (* one [\uXXXX] *)
    cbn [app]. destruct (is_high c) eqn:H.
    2:{ rewrite (scan_unit _ _ _ _ _ _ V H), IH1. cbn [recombine push].
        rewrite H. reflexivity. }
    destruct q1 as [|c2 q2].
    + cbn [flat_map app]. rewrite (scan_high_alone _ _ _ _ _ _ V).
      * cbn [recombine]. rewrite H. reflexivity.
      * destruct rest; [exact I | left; reflexivity].
    + cbn [List.length] in Len. inversion Wf1 as [|? ? Hc2 Wf2]; subst.
      pose proof (IH q2 ltac:(lia) Wf2 rest) as IH2.
      pose proof (escape_char_escaped c2 Hc2) as E2.
      cbn [flat_map] in IH1 |- *. rewrite <- app_assoc in IH1 |- *.
      remember (escape_char c2) as ec2 eqn:Eec2. clear Eec2.
      cbn [recombine]. rewrite H.
      destruct E2 as [e S Ne | L N1 N2 | l1 l2 l3 l4 V2
                     | hi lo k1 k2 k3 k4 l1 l2 l3 l4 W1 W2 H2 L2 P2].
      * cbn [app] in IH1 |- *.
        rewrite (scan_high_alone _ _ _ _ _ _ V), IH1.
        -- destruct (ascii_not_surrogate c2 (short_escape_ascii e c2 S)) as [_ ->].
           reflexivity.
        -- left. rewrite (proj2 (N.eqb_neq e 0x75) Ne). apply andb_false_r.
      * cbn [app] in IH1 |- *.
        rewrite (scan_high_alone _ _ _ _ _ _ V), IH1.
        -- replace (is_low c2) with false
             by (unfold is_low; rewrite (proj2 (N.leb_gt 0xDC00 c2)) by lia; reflexivity).
           reflexivity.
        -- destruct (flat_map escape_char q2 ++ 0x22 :: rest); [exact I|].
           left. rewrite (proj2 (N.eqb_neq c2 backslash) N2). reflexivity.
      * cbn [app] in IH1 |- *.
        destruct (is_low c2) eqn:L2.
        -- rewrite (scan_pair _ _ _ _ _ _ _ _ _ _ _ V V2 H L2), IH2. reflexivity.
        -- rewrite (scan_high_alone _ _ _ _ _ _ V), IH1; [reflexivity|].
           right. exists l1, l2, l3, l4, (flat_map escape_char q2 ++ 0x22 :: rest), c2.
           auto.
      * cbn [app] in IH1 |- *.
        rewrite (scan_high_alone _ _ _ _ _ _ V), IH1.
        -- subst c2. destruct (pair_up_not_surrogate hi lo) as [_ ->]. reflexivity.
        -- right. do 5 eexists. exists hi.
           split; [reflexivity|]. split; [exact W1 | apply high_not_low, H2].
  - (* a surrogate pair *)
    cbn [app]. rewrite (scan_pair _ _ _ _ _ _ _ _ _ _ _ V1 V2 H L), IH1, P.
    subst c. destruct (pair_up_not_surrogate hi lo) as [Hh _].
    cbn [recombine push]. rewrite Hh. reflexivity.
Qed.

(** What [encode_basestring_ascii] writes, the decoder reads back. *)
Lemma scan_escaped q rest :
  Forall (fun c => c < 0x110000) q ->
  scan_string (flat_map escape_char q ++ 0x22 :: rest) = Some (recombine q, rest).
Proof. intros Wf. apply (scan_escaped_bounded (List.length q) q); [lia | exact Wf]. Qed.

End Escapes.

Lemma dumps_result_text q : dumps (workflow_result q) 2 = result_text q.
Proof.
  unfold dumps, workflow_result, result_text.
  cbn [dumps_at List.map fst snd join].
  rewrite <- !app_assoc.
  generalize (encode_basestring_ascii q). intros e.
  vm_compute. reflexivity.
Qed.

Section Scan.
Local Open Scope N_scope.

Lemma scan_object fuel t c1 t1 ms r :
  skip_ws t = c1 :: t1 -> (c1 =? 0x7D) = false ->
  scan_members fuel (c1 :: t1) = Some (ms, r) ->
  scan_value (S fuel) (0x7B :: t) = Some (JObject ms, r).
Proof. intros E N M. cbn [scan_value]. change (0x7B =? 0x7B) with true. cbn match. rewrite E, N, M. reflexivity. Qed.

Lemma scan_string_value fuel t x r :
  scan_string t = Some (x, r) ->
  scan_value (S fuel) (0x22 :: t) = Some (JString x, r).
Proof. intros E. cbn [scan_value]. change (0x22 =? 0x7B) with false. change (0x22 =? 0x5B) with false.
  change (0x22 =? 0x22) with true. cbn match. rewrite E. reflexivity. Qed.

Lemma scan_member_more fuel kt k r1 r2 v r3 r4 ms r5 :
  scan_string kt = Some (k, r1) ->
  skip_ws r1 = 0x3A :: r2 ->
  scan_value fuel (skip_ws r2) = Some (v, r3) ->
  skip_ws r3 = 0x2C :: r4 ->
  scan_members fuel (skip_ws r4) = Some (ms, r5) ->
  scan_members (S fuel) (0x22 :: kt) = Some ((k, v) :: ms, r5).
Proof.
  intros K C V S M. cbn [scan_members]. change (0x22 =? 0x22) with true. cbn [negb]. cbn match.
  rewrite K, C. change (0x3A =? 0x3A) with true. cbn [negb]. cbn match. rewrite V, S.
  change (0x2C =? 0x7D) with false. change (0x2C =? 0x2C) with true. cbn match. rewrite M. reflexivity.
Qed.

Lemma scan_member_last fuel kt k r1 r2 v r3 r4 :
  scan_string kt = Some (k, r1) ->
  skip_ws r1 = 0x3A :: r2 ->
  scan_value fuel (skip_ws r2) = Some (v, r3) ->
  skip_ws r3 = 0x7D :: r4 ->
  scan_members (S fuel) (0x22 :: kt) = Some ([(k, v)], r4).
Proof.
  intros K C V S. cbn [scan_members]. change (0x22 =? 0x22) with true. cbn [negb]. cbn match.
  rewrite K, C. change (0x3A =? 0x3A) with true. cbn [negb]. cbn match. rewrite V, S.
  change (0x7D =? 0x7D) with true. cbn match. reflexivity.
Qed.
End Scan.

Ltac run_scan := lazy; reflexivity.

Lemma loads_result_text q :
  wf_str q ->
  loads (result_text q) = Some (to_json (workflow_result (recombine q))).
Proof.
  intros Wf. pose proof (fun rest => scan_escaped q rest Wf) as H.
  unfold loads, result_text, encode_basestring_ascii, quoted.
  cbn [join]. rewrite <- !app_assoc.
  revert H. generalize (flat_map escape_char q) (recombine q). intros e d H.
  match goal with
  | |- context [skip_ws ?t] =>
    let t' := eval cbn in t in change t with t'
  end.
  cbn [List.length].
  match goal with
  | |- context [skip_ws (?c :: ?t)] => change (skip_ws (c :: t)) with (c :: t)
  end.
  match goal with
  | |- match ?scan with _ => _ end = _ =>
    assert (E : scan
                = Some (JObject
                          [ (u "workflow_id", JString (u "gemma-rag-cascade"));
                            (u "input", JObject [(u "query", JString d)]);
                            (u "status", JString (u "completed"));
                            (u "nodes_executed", JNumber 13 0);
                            (u "merkle_root", JString (u "4fcd7d2a62aa31a3")) ],
                        []))
  end.
  { eapply scan_object; [run_scan | reflexivity |].
    (* "workflow_id": "gemma-rag-cascade", *)
    eapply scan_member_more.
    1: run_scan. 1: run_scan. 1: eapply scan_string_value; run_scan. 1: run_scan.
    (* "input": { "query": ... }, *)
    eapply scan_member_more.
    1: run_scan. 1: run_scan.
    1: { eapply scan_object; [run_scan | reflexivity |].
         eapply scan_member_last.
         1: run_scan. 1: run_scan.
         1: eapply scan_string_value; exact (H _).
         run_scan. }
    1: run_scan.
    (* the three members after the query: closed text *)
    run_scan. }
  rewrite E. reflexivity.
Qed.

(** ** The entry point                                                    *)

Section EntryPoint.
Context {RT : Runtime}.

Lemma single_shot_quiet args w :
  quiet 6 w ->
  single_shot args w
  = (Returns tt,
     after (stdin w) 6
       (progress (join (u " ") args) ++ [result_line (join (u " ") args)]) w).
Proof.
  intros H. unfold single_shot. cbn zeta.
  unfold bind at 1.
  rewrite execute_workflow_quiet by (intros k Hk; apply H; lia).
  unfold print, write.
  rewrite primitive_ok by quiet_tac H.
  rewrite tick_after, emit_after.
  rewrite dumps_result_text. reflexivity.
Qed.

Lemma usage_quiet w :
  quiet 3 w ->
  usage w = (Raises (SystemExit 1), after (stdin w) 3 usage_lines w).
Proof.
  intros H. rewrite <- (after_0 w) at 1. unfold usage, print.
  do 3 step H. reflexivity.
Qed.

Lemma main_single_shot prog a rest w :
  mem a [u "--interactive"; u "-i"] = false ->
  main (prog :: a :: rest) w = Ret (single_shot (a :: rest) w).
Proof.
  intros F. unfold main. cbn [List.length Nat.ltb Nat.leb nth skipn].
  rewrite F. reflexivity.
Qed.

Lemma main_usage prog w : main [prog] w = Ret (usage w).
Proof. reflexivity. Qed.

Lemma script_ret argv w r w1 :
  main argv w = Ret (r, w1) -> script argv w ≈ Ret (exit_of r, w1).
Proof. intros E. unfold script. rewrite E, map_ret. reflexivity. Qed.

End EntryPoint.

(* ===================================================================== *)
(** * The claims                                                          *)
(* ===================================================================== *)

Section QueryRunner.
Context {RT : Runtime}.

(** C1.  For every non-empty query string [Q], [execute_workflow Q]
    returns a result whose ["input"]["query"] is [Q] itself.  (The terminal
    is [quiet] for the five lines the function prints.) *)
Theorem execute_workflow_echoes_query (Q : str) (w : world) :
  Q <> [] -> quiet 5 w ->
  exists result w',
    execute_workflow Q w = (Returns result, w')
    /\ exists inp, item (u "input") result = Some inp
                   /\ item (u "query") inp = Some (PyStr Q).
Proof.
  intros _ H. exists (workflow_result Q), (after (stdin w) 5 (progress Q) w).
  split; [apply execute_workflow_quiet, H|].
  exists (PyDict [(u "query", PyStr Q)]). split; reflexivity.
Qed.

(** C2.  For every query string the result has [nodes_executed] equal to
    13 and [merkle_root] equal to ["4fcd7d2a62aa31a3"]: neither depends on
    the query. *)
Theorem execute_workflow_constants (Q : str) (w : world) :
  quiet 5 w ->
  exists result w',
    execute_workflow Q w = (Returns result, w')
    /\ item (u "nodes_executed") result = Some (PyInt 13)
    /\ item (u "merkle_root") result = Some (PyStr (u "4fcd7d2a62aa31a3")).
Proof.
  intros H. exists (workflow_result Q), (after (stdin w) 5 (progress Q) w).
  split; [apply execute_workflow_quiet, H|]. split; reflexivity.
Qed.

End QueryRunner.

Section InteractiveLoop.
Context {RT : Runtime}.

Lemma iteration_returns w f w1 :
  guarded w = (Returns f, w1) -> iteration w = (Returns f, w1).
Proof. apply try_except_returns. Qed.

(** C4.  A line whose trimmed, lowercased form is one of the three quit
    words ends the loop, with the farewell printed; any other line leaves
    the loop running. *)
Theorem quit_word_ends_loop (w : world) (line : str) (rest : list str) :
  stdin w = line :: rest -> quiet 10 w ->
  (says_quit line ->
     iteration w = (Returns Break, after rest 3 [prompt; goodbye] w)
     /\ while_true iteration w ≈ Ret (Returns tt, after rest 3 [prompt; goodbye] w))
  /\ (~ says_quit line ->
     exists w', iteration w = (Returns Continue, w')
                /\ while_true iteration w ≈ while_true iteration w').
Proof.
  intros E H. split.
  - intros Q. apply mem_In in Q.
    assert (I : iteration w = (Returns Break, after rest 3 [prompt; goodbye] w)).
    { apply iteration_returns, guarded_quit with (line := line); auto.
      intros k Hk. apply H. lia. }
    split; [exact I | apply while_true_break, I].
  - intros Q.
    assert (Q' : mem (lower unicode_lower (strip line)) quit_words = false).
    { destruct (mem _ _) eqn:M; [|reflexivity]. apply mem_In in M. contradiction. }
    destruct (strip line) as [|c q] eqn:S.
    + eexists. 
      assert (I : iteration w = (Returns Continue, after rest 2 [prompt] w)).
      { apply iteration_returns, guarded_empty with (line := line); auto.
        intros k Hk. apply H. lia. }
      split; [exact I | apply while_true_continue, I].
    + eexists.
      pose proof (guarded_query w line rest E) as G.
      rewrite S in G. specialize (G Q' ltac:(discriminate) H).
      apply iteration_returns in G.
      split; [exact G | apply while_true_continue, G].
Qed.

(** C5.  A line that is empty once trimmed sends the loop back to wait for
    input: two primitive calls were made (the prompt, the read), the prompt
    is all that was written: no query was run, no result and no timing line
    printed. *)
Theorem blank_line_skipped (w : world) (line : str) (rest : list str) :
  stdin w = line :: rest -> strip line = [] -> quiet 2 w ->
  iteration w = (Returns Continue, after rest 2 [prompt] w)
  /\ while_true iteration w ≈ while_true iteration (after rest 2 [prompt] w).
Proof.
  intros E S H.
  assert (I : iteration w = (Returns Continue, after rest 2 [prompt] w))
    by (apply iteration_returns, guarded_empty with (line := line); auto).
  split; [exact I | apply while_true_continue, I].
Qed.

(** C6.  An exception (an instance of [Exception]) raised while a query is
    processed is caught: its message is printed behind the error marker and
    the loop goes back to wait for input. *)
Theorem processing_error_reported
    (w : world) (line : str) (rest : list str) (cls message : str) (w1 : world) :
  stdin w = line :: rest -> ~ says_quit line -> strip line <> [] -> quiet 2 w ->
  process (strip line) (after rest 2 [prompt] w) = (Raises (PyException cls message), w1) ->
  faults w1 (ticks w1) = None ->
  iteration w = (Returns Continue, emit (error_line message) (tick w1))
  /\ while_true iteration w ≈ while_true iteration (emit (error_line message) (tick w1)).
Proof.
  intros E Q S H P F.
  assert (Q' : mem (lower unicode_lower (strip line)) quit_words = false).
  { destruct (mem _ _) eqn:M; [|reflexivity]. apply mem_In in M. contradiction. }
  assert (G : guarded w = (Raises (PyException cls message), w1)).
  { rewrite (guarded_start w line rest E) at 1. unfold guarded.
    rewrite bind_input by exact H. cbn beta zeta. rewrite Q'.
    destruct (strip line); [congruence | exact P]. }
  assert (I : iteration w = (Returns Continue, emit (error_line message) (tick w1))).
  { unfold iteration. erewrite try_except_raises by (exact G || reflexivity).
    unfold print. rewrite bind_write by exact F. reflexivity. }
  split; [exact I | apply while_true_continue, I].
Qed.

(** C8, as the code has it.  An interrupt delivered to any call of the
    guarded body of an iteration (the prompt, the read, the clock readings,
    the lines of the query runner, the timing line, the farewell) ends the
    loop: the farewell is printed, and it is all that is printed after the
    interrupt. *)
Theorem interrupt_in_try_body_ends_loop (w : world) (n : nat) :
  n < guarded_calls w -> quiet n w ->
  faults w (ticks w + n) = Some KeyboardInterrupt ->
  faults w (ticks w + S n) = None ->
  exists w1,
    guarded w = (Raises KeyboardInterrupt, w1)
    /\ ticks w1 = ticks w + S n
    /\ iteration w = (Returns Break, emit goodbye_interrupted (tick w1))
    /\ while_true iteration w ≈ Ret (Returns tt, emit goodbye_interrupted (tick w1)).
Proof.
  intros L Hq Hf Hn.
  destruct (guarded_interrupted w n L Hq Hf) as (rest & outs & G).
  exists (after rest (S n) outs w).
  assert (I : iteration w
              = (Returns Break, emit goodbye_interrupted (tick (after rest (S n) outs w)))).
  { unfold iteration. erewrite try_except_raises by (exact G || reflexivity).
    unfold print. rewrite bind_write; [reflexivity|].
    cbn [faults ticks after]. rewrite <- Hn. f_equal. lia. }
  repeat split; [exact G | cbn; lia | exact I | apply while_true_break, I].
Qed.

(** C9.  The end of the input does not end the loop.  The read raises
    [EOFError], the generic clause prints it as an error and the loop waits
    for input again; an iteration, whatever its world, ends the loop only
    for a quit word or an interrupt; and with the input at its end and no
    fault to come the loop runs for ever: it never returns. *)
Theorem end_of_input_does_not_end_loop (w : world) :
  stdin w = [] -> calm w ->
  iteration w
  = (Returns Continue,
     after [] 3 [prompt; error_line (u "EOF when reading a line")] w)
  /\ (forall w0 w', iteration w0 = (Returns Break, w') ->
        (exists line rest, stdin w0 = line :: rest /\ says_quit line)
        \/ (exists k, ticks w0 <= k < ticks w'
                      /\ faults w0 k = Some KeyboardInterrupt))
  /\ while_true iteration w ≈ ITree.spin
  /\ (forall r, ~ (while_true iteration w ≈ Ret r)).
Proof.
  intros E C.
  pose proof (loop_on_eof_diverges w E C) as D.
  split; [|split; [|split]].
  - apply iteration_eof; [exact E | apply calm_quiet, C].
  - apply break_origin.
  - exact D.
  - apply spin_never_returns, D.
Qed.

End InteractiveLoop.

Section EntryPointClaims.
Context {RT : Runtime}.

Lemma wf_str_app a b : wf_str a -> wf_str b -> wf_str (a ++ b).
Proof. intros Ha Hb. apply Forall_app. split; assumption. Qed.

Lemma wf_str_join parts : Forall wf_str parts -> wf_str (join (u " ") parts).
Proof.
  induction 1 as [|p rest Hp Hrest IH]; [constructor|].
  destruct rest as [|p2 rest]; [exact Hp|].
  change (join (u " ") (p :: p2 :: rest)) with (p ++ u " " ++ join (u " ") (p2 :: rest)).
  apply wf_str_app; [exact Hp|]. apply wf_str_app; [|exact IH].
  repeat constructor.
Qed.

Lemma not_flag a :
  ~ In a [u "--interactive"; u "-i"] -> mem a [u "--interactive"; u "-i"] = false.
Proof.
  intros N. destruct (mem a _) eqn:M; [|reflexivity].
  apply mem_In in M. contradiction.
Qed.

(** C3.  Invoked with a query argument, the program runs the query runner
    once, prints the result as a JSON object indented by two spaces, and
    ends with status 0.  What it printed after the marker is read by a JSON
    decoder as an object whose ["workflow_id"] is ["gemma-rag-cascade"]
    (and whose query is the one given). *)
Theorem single_shot_prints_json (prog a : str) (rest : list str) (w : world) :
  ~ In a [u "--interactive"; u "-i"] ->
  Forall wf_str (a :: rest) ->
  quiet 6 w ->
  let query := join (u " ") (a :: rest) in
  script (prog :: a :: rest) w
  ≈ Ret (Exit 0, after (stdin w) 6 (progress query ++ [result_line query]) w)
  /\ result_line query = Printed (nl ++ u "📊 Result: " ++ dumps (workflow_result query) 2)
  /\ exists members,
       loads (result_text query) = Some (JObject members)
       /\ lookup (u "workflow_id") members = Some (JString (u "gemma-rag-cascade"))
       /\ lookup (u "input") members
          = Some (JObject [(u "query", JString (recombine query))]).
Proof.
  intros F Wf H query. split; [|split].
  - apply (script_ret _ _ (Returns tt)).
    rewrite (main_single_shot prog a rest w (not_flag a F)).
    rewrite (single_shot_quiet (a :: rest) w H). reflexivity.
  - unfold result_line. rewrite dumps_result_text. reflexivity.
  - eexists. split; [apply loads_result_text, wf_str_join, Wf|].
    split; reflexivity.
Qed.

(** C7.  Invoked with no argument, the program prints the usage text, whose
    first line is ["Usage:"], and exits with status 1: three primitive
    calls, all of them [print]s, nothing read, no query run. *)
Theorem no_argument_prints_usage (prog : str) (w : world) :
  quiet 3 w ->
  main [prog] w = Ret (Raises (SystemExit 1), after (stdin w) 3 usage_lines w)
  /\ script [prog] w ≈ Ret (Exit 1, after (stdin w) 3 usage_lines w)
  /\ hd_error usage_lines = Some (Printed (u "Usage:")).
Proof.
  intros H.
  assert (M : main [prog] w = Ret (Raises (SystemExit 1), after (stdin w) 3 usage_lines w))
    by (rewrite main_usage, (usage_quiet w H); reflexivity).
  split; [exact M | split; [|reflexivity]].
  apply (script_ret _ _ _ _ M).
Qed.

(** C10.  With arguments of which the first is not the interactive flag,
    [main] joins them all with single spaces and runs the query runner once
    on the joined string, a flag in a later position being part of the
    query; as the first argument, either flag starts the interactive
    mode. *)
Theorem arguments_joined_into_query (prog a : str) (rest : list str) (w : world) :
  ~ In a [u "--interactive"; u "-i"] ->
  quiet 6 w ->
  let query := join (u " ") (a :: rest) in
  main (prog :: a :: rest) w
  = Ret (Returns tt, after (stdin w) 6 (progress query ++ [result_line query]) w)
  /\ (forall flag, In flag [u "--interactive"; u "-i"] ->
        main (prog :: flag :: rest) w = interactive_mode w).
Proof.
  intros F H query. split.
  - rewrite (main_single_shot prog a rest w (not_flag a F)).
    rewrite (single_shot_quiet (a :: rest) w H). reflexivity.
  - intros flag I. apply mem_In in I.
    unfold main. cbn [List.length Nat.ltb Nat.leb nth]. rewrite I. reflexivity.
Qed.

End EntryPointClaims.

(** ** A whole session                                                    *)

Section Sessions.
Context {RT : Runtime}.

(** A whole session: when the lines typed are queries and blank lines
    followed by a quit word, and nothing goes wrong, the loop ends, having
    read up to the quit word and no further. *)
Lemma session_ends lines :
  forall w quit_line rest,
    stdin w = lines ++ quit_line :: rest ->
    Forall (fun line => ~ says_quit line) lines ->
    says_quit quit_line ->
    calm w ->
    exists w', while_true iteration w ≈ Ret (Returns tt, w')
               /\ stdin w' = rest /\ calm w'
               /\ exists outs, stdout w' = stdout w ++ outs ++ [prompt; goodbye].
Proof.
  induction lines as [|line lines IH]; intros w quit_line rest E N Q C.
  - apply mem_In in Q.
    pose proof (guarded_quit w quit_line rest E Q (calm_quiet 3 w C)) as G.
    apply iteration_returns, while_true_break in G.
    eexists. split; [exact G|]. split; [reflexivity|]. split; [apply calm_after, C|].
    exists []. reflexivity.
  - inversion N as [|? ? Nl Ns]; subst.
    assert (M : mem (lower unicode_lower (strip line)) quit_words = false).
    { destruct (mem _ _) eqn:M; [|reflexivity]. apply mem_In in M. contradiction. }
    assert (G : exists n outs,
               iteration w = (Returns Continue, after (lines ++ quit_line :: rest) n outs w)).
    { destruct (strip line) as [|c q] eqn:S.
      - exists 2, [prompt]. apply iteration_returns.
        apply guarded_empty with (line := line); [exact E | exact S | apply calm_quiet, C].
      - rewrite <- S in M. eexists _, _. apply iteration_returns.
        apply guarded_query; [exact E | exact M | rewrite S; discriminate
                             | apply calm_quiet, C]. }
    destruct G as (n & outs & G).
    destruct (IH (after (lines ++ quit_line :: rest) n outs w) quit_line rest
                eq_refl Ns Q (calm_after _ n outs w C))
      as (w' & L & S' & C' & outs' & O).
    exists w'. split; [|split; [exact S' | split; [exact C'|]]].
    + rewrite (while_true_continue iteration w _ G). exact L.
    + exists (outs ++ outs'). rewrite O. cbn [stdout after].
      rewrite <- !app_assoc. reflexivity.
Qed.

End Sessions.

(* ===================================================================== *)
(** * Concrete runs of the claims                                         *)
(* ===================================================================== *)

Lemma terminal_quiet n m e lines :
  n <= m -> quiet n (Demo.terminal lines (Demo.fault_at m e)).
Proof.
  intros L k Hk. cbn in *. unfold Demo.fault_at.
  destruct (Nat.eqb_spec k m); [lia | reflexivity].
Qed.

Lemma terminal_calm lines : calm (Demo.terminal lines Demo.no_fault).
Proof. intros k _. reflexivity. Qed.

Lemma terminal_quiet_all n lines : quiet n (Demo.terminal lines Demo.no_fault).
Proof. intros k _. reflexivity. Qed.

Lemma execute_workflow_echoes_query_witness :
  u "What is RAG?" <> []
  /\ quiet 5 Demo.idle
  /\ exists result w',
       execute_workflow (u "What is RAG?") Demo.idle = (Returns result, w')
       /\ exists inp, item (u "input") result = Some inp
                      /\ item (u "query") inp = Some (PyStr (u "What is RAG?")).
Proof.
  assert (N : u "What is RAG?" <> []) by discriminate.
  split; [exact N | split; [apply terminal_quiet_all|]].
  exact (execute_workflow_echoes_query (u "What is RAG?") Demo.idle N
           (terminal_quiet_all 5 [])).
Defined.

Lemma execute_workflow_constants_witness :
  quiet 5 Demo.idle
  /\ exists result w',
       execute_workflow (u "anything") Demo.idle = (Returns result, w')
       /\ item (u "nodes_executed") result = Some (PyInt 13)
       /\ item (u "merkle_root") result = Some (PyStr (u "4fcd7d2a62aa31a3")).
Proof.
  split; [apply terminal_quiet_all|].
  exact (execute_workflow_constants (u "anything") Demo.idle (terminal_quiet_all 5 [])).
Defined.

Lemma single_shot_prints_json_witness :
  ~ In (u "What is RAG?") [u "--interactive"; u "-i"]
  /\ Forall wf_str [u "What is RAG?"]
  /\ quiet 6 Demo.idle
  /\ script [Demo.prog; u "What is RAG?"] Demo.idle
     ≈ Ret (Exit 0,
            after [] 6 (progress (u "What is RAG?") ++ [result_line (u "What is RAG?")])
              Demo.idle)
  /\ exists members,
       loads (result_text (u "What is RAG?")) = Some (JObject members)
       /\ lookup (u "workflow_id") members = Some (JString (u "gemma-rag-cascade")).
Proof.
  assert (F : ~ In (u "What is RAG?") [u "--interactive"; u "-i"]).
  { intros [E | [E | []]]; discriminate E. }
  assert (W : Forall wf_str [u "What is RAG?"]).
  { repeat constructor. }
  split; [exact F | split; [exact W | split; [apply terminal_quiet_all|]]].
  destruct (single_shot_prints_json Demo.prog (u "What is RAG?") [] Demo.idle F W
              (terminal_quiet_all 6 [])) as (S & _ & members & L & K & _).
  split; [exact S | exists members; split; assumption].
Defined.

Lemma quit_word_ends_loop_witness :
  stdin Demo.quitting = u "  QUIT  " :: [u "more"]
  /\ quiet 10 Demo.quitting
  /\ says_quit (RT := Demo.runtime) (u "  QUIT  ")
  /\ iteration Demo.quitting
     = (Returns Break, after [u "more"] 3 [prompt; goodbye] Demo.quitting).
Proof.
  assert (Q : says_quit (RT := Demo.runtime) (u "  QUIT  ")) by (left; reflexivity).
  split; [reflexivity | split; [apply terminal_quiet_all | split; [exact Q|]]].
  exact (proj1 (proj1 (quit_word_ends_loop Demo.quitting (u "  QUIT  ") [u "more"]
                         eq_refl (terminal_quiet_all 10 _)) Q)).
Defined.

Lemma blank_line_skipped_witness :
  stdin Demo.blank = u "   " :: [u "next"]
  /\ strip (u "   ") = []
  /\ quiet 2 Demo.blank
  /\ iteration Demo.blank = (Returns Continue, after [u "next"] 2 [prompt] Demo.blank).
Proof.
  split; [reflexivity | split; [reflexivity | split; [apply terminal_quiet_all|]]].
  exact (proj1 (blank_line_skipped Demo.blank (u "   ") [u "next"] eq_refl eq_refl
                  (terminal_quiet_all 2 _))).
Defined.

Lemma processing_error_reported_witness :
  stdin Demo.garbled = u "hello" :: []
  /\ ~ says_quit (RT := Demo.runtime) (u "hello")
  /\ strip (u "hello") <> []
  /\ quiet 2 Demo.garbled
  /\ process (strip (u "hello")) (after [] 2 [prompt] Demo.garbled)
     = (Raises Demo.encoding_error, after [] 4 [prompt] Demo.garbled)
  /\ faults (after [] 4 [prompt] Demo.garbled) (ticks (after [] 4 [prompt] Demo.garbled))
     = None
  /\ iteration Demo.garbled
     = (Returns Continue,
        after [] 5 [prompt; error_line (u "'ascii' codec can't encode character")]
          Demo.garbled).
Proof.
  assert (Q : ~ says_quit (RT := Demo.runtime) (u "hello")).
  { intros [E | [E | [E | []]]]; discriminate E. }
  assert (S : strip (u "hello") <> []) by discriminate.
  assert (H : quiet 2 Demo.garbled) by (apply terminal_quiet; lia).
  assert (P : process (strip (u "hello")) (after [] 2 [prompt] Demo.garbled)
              = (Raises Demo.encoding_error, after [] 4 [prompt] Demo.garbled))
    by reflexivity.
  assert (F : faults (after [] 4 [prompt] Demo.garbled)
                (ticks (after [] 4 [prompt] Demo.garbled)) = None) by reflexivity.
  repeat (split; [assumption || reflexivity|]).
  exact (proj1 (processing_error_reported Demo.garbled (u "hello") []
                  (u "UnicodeEncodeError") (u "'ascii' codec can't encode character")
                  (after [] 4 [prompt] Demo.garbled) eq_refl Q S H P F)).
Defined.

Lemma interrupt_in_try_body_ends_loop_witness :
  5 < guarded_calls Demo.interrupted
  /\ quiet 5 Demo.interrupted
  /\ faults Demo.interrupted (ticks Demo.interrupted + 5) = Some KeyboardInterrupt
  /\ faults Demo.interrupted (ticks Demo.interrupted + 6) = None
  /\ exists w1,
       guarded Demo.interrupted = (Raises KeyboardInterrupt, w1)
       /\ ticks w1 = ticks Demo.interrupted + 6
       /\ iteration Demo.interrupted
          = (Returns Break, emit goodbye_interrupted (tick w1)).
Proof.
  assert (L : 5 < guarded_calls Demo.interrupted) by (vm_compute; lia).
  assert (H : quiet 5 Demo.interrupted) by (apply terminal_quiet; lia).
  split; [exact L | split; [exact H | split; [reflexivity | split; [reflexivity|]]]].
  destruct (interrupt_in_try_body_ends_loop Demo.interrupted 5 L H eq_refl eq_refl)
    as (w1 & G & T & I & _).
  exists w1. repeat split; assumption.
Defined.

Lemma end_of_input_does_not_end_loop_witness :
  stdin Demo.idle = [] /\ calm Demo.idle
  /\ iteration Demo.idle
     = (Returns Continue,
        after [] 3 [prompt; error_line (u "EOF when reading a line")] Demo.idle)
  /\ (forall r, ~ (while_true iteration Demo.idle ≈ Ret r)).
Proof.
  split; [reflexivity | split; [apply terminal_calm|]].
  destruct (end_of_input_does_not_end_loop Demo.idle eq_refl (terminal_calm []))
    as (I & _ & _ & N).
  split; assumption.
Defined.

Lemma no_argument_prints_usage_witness :
  quiet 3 Demo.idle
  /\ script [Demo.prog] Demo.idle ≈ Ret (Exit 1, after [] 3 usage_lines Demo.idle).
Proof.
  split; [apply terminal_quiet_all|].
  exact (proj1 (proj2 (no_argument_prints_usage Demo.prog Demo.idle
                         (terminal_quiet_all 3 [])))).
Defined.

Lemma arguments_joined_into_query_witness :
  ~ In (u "foo") [u "--interactive"; u "-i"]
  /\ quiet 6 Demo.idle
  /\ main [Demo.prog; u "foo"; u "--interactive"] Demo.idle
     = Ret (Returns tt,
            after [] 6 (progress (u "foo --interactive")
                          ++ [result_line (u "foo --interactive")]) Demo.idle).
Proof.
  assert (F : ~ In (u "foo") [u "--interactive"; u "-i"]).
  { intros [E | [E | []]]; discriminate E. }
  split; [exact F | split; [apply terminal_quiet_all|]].
  exact (proj1 (arguments_joined_into_query Demo.prog (u "foo") [u "--interactive"]
                  Demo.idle F (terminal_quiet_all 6 []))).
Defined.

(** C8, as stated, fails.  The input is at its end: the read raises
    [EOFError] and the [except Exception] clause starts printing the error.
    The interrupt arrives at that call, inside the loop but outside the
    [try]: no clause catches it, the loop is left by the exception and no
    farewell is printed. *)
Lemma interrupt_in_except_clause_escapes :
  quiet 2 Demo.eof_interrupted
  /\ faults Demo.eof_interrupted 2 = Some KeyboardInterrupt
  /\ faults Demo.eof_interrupted 3 = None
  /\ iteration Demo.eof_interrupted
     = (Raises KeyboardInterrupt, after [] 3 [prompt] Demo.eof_interrupted)
  /\ ~ In goodbye_interrupted (stdout (after [] 3 [prompt] Demo.eof_interrupted))
  /\ while_true iteration Demo.eof_interrupted
     ≈ Ret (Raises KeyboardInterrupt, after [] 3 [prompt] Demo.eof_interrupted).
Proof.
  assert (I : iteration Demo.eof_interrupted
              = (Raises KeyboardInterrupt, after [] 3 [prompt] Demo.eof_interrupted))
    by reflexivity.
  split; [intros k Hk; cbn in *; unfold Demo.fault_at;
          destruct (Nat.eqb_spec k 2); [lia | reflexivity]|].
  split; [reflexivity | split; [reflexivity | split; [exact I | split]]].
  - intros [E | []]. discriminate E.
  - apply while_true_raise, I.
Qed.

(** The same run seen from the shell: the session ends in a traceback. *)
Example interrupted_session_traceback :
  exists w',
    script [Demo.prog; u "-i"] Demo.eof_interrupted_session
    ≈ Ret (Traceback KeyboardInterrupt, w')
    /\ ~ In goodbye_interrupted (stdout w') /\ ~ In goodbye (stdout w').
Proof.
  eexists. split.
  - unfold script, main. cbn [List.length Nat.ltb Nat.leb nth].
    change (mem (u "-i") [u "--interactive"; u "-i"]) with true. cbn match.
    unfold interactive_mode, andthen.
    replace (banner Demo.eof_interrupted_session)
      with (@Returns unit tt,
            after [] 5 [Printed (times (u "=") 60);
                        Printed (u "Gemma RAG + CASCADE Interactive Mode");
                        Printed (times (u "=") 60);
                        Printed (nl ++ u "Type your questions (or 'quit' to exit)");
                        Printed (u "Each query will be processed with full provenance tracking" ++ nl)]
              Demo.eof_interrupted_session) by reflexivity.
    rewrite while_true_raise with (e := KeyboardInterrupt); [|reflexivity].
    rewrite map_ret. reflexivity.
  - split; intros H; cbn in H; repeat destruct H as [H|H]; try discriminate H; exact H.
Qed.

Section Examples.
Context {RT : Runtime}.

(** The lines the specification names all end the loop. *)
Example quit_lines :
  Forall says_quit [u "quit"; u "QUIT"; u "  quit  "; u "exit"; u "q"; u " Exit"].
Proof. repeat constructor; cbv; tauto. Qed.

Example not_quit_lines : ~ says_quit (u "quit now") /\ ~ says_quit (u "").
Proof. split; intros [E | [E | [E | []]]]; discriminate E. Qed.

End Examples.

Example u_emoji : u "🔍 ✓ ⚙️" = [0x1F50D; 32; 0x2713; 32; 0x2699; 0xFE0F]%N.
Proof. reflexivity. Qed.

Example dumps_escapes :
  dumps (PyDict [(u "q", PyStr [0x22; 0xE9; 0x1F50D; 0x0A]%N)]) 2
  = u "{" ++ nl ++ u "  " ++ quoted (u "q") ++ u ": "
      ++ quoted (backslash :: dq ++ backslash :: u "u00e9"
                   ++ backslash :: u "ud83d" ++ backslash :: u "udd0d"
                   ++ backslash :: u "n")
      ++ nl ++ u "}".
Proof. reflexivity. Qed.

Example foo_bar :
  main [Demo.prog; u "foo"; u "bar"] Demo.idle
  = Ret (Returns tt,
         after [] 6 (progress (u "foo bar") ++ [result_line (u "foo bar")]) Demo.idle).
Proof.
  rewrite main_single_shot by reflexivity.
  rewrite single_shot_quiet by (intros k _; reflexivity). reflexivity.
Qed.

(* ===================================================================== *)
(** * Beyond the claims                                                   *)
(* ===================================================================== *)

(** ** The query runner and the single-shot mode under faults             *)

(** As [walk], for a fault [e] of any kind. *)
Ltac trace e Hq Hf :=
  repeat first
    [ rewrite bind_bind
    | rewrite bind_ret
    | rewrite bind_write by quiet_tac Hq
    | rewrite bind_time by quiet_tac Hq
    | rewrite bind_getitem with (v := PyInt 13) by reflexivity
    | rewrite bind_getitem with (v := PyStr (u "4fcd7d2a62aa31a3")) by reflexivity
    | rewrite bind_write_fault with (e := e) by fault_tac Hf
    | rewrite bind_time_fault with (e := e) by fault_tac Hf
    | progress rewrite ?tick_after, ?emit_after, ?feed_after
    | progress cbn beta zeta ].

Section RunnerFaults.
Context {RT : Runtime}.

Lemma quiet_0 w : quiet 0 w.
Proof. intros k Hk. lia. Qed.

Lemma quiet_S n w : quiet n w -> faults w (ticks w + n) = None -> quiet (S n) w.
Proof.
  intros H F k Hk. destruct (Nat.eq_dec k (ticks w + n)) as [->|N]; [exact F|].
  apply H. lia.
Qed.

Lemma quiet_split n m w r outs : quiet (n + m) w -> quiet n w /\ quiet m (after r n outs w).
Proof. intros H. split; intros k Hk; cbn in *; apply H; lia. Qed.

Lemma after_after r1 n1 o1 r2 n2 o2 w :
  after r2 n2 o2 (after r1 n1 o1 w) = after r2 (n1 + n2) (o1 ++ o2) w.
Proof.
  unfold after. cbn. f_equal; [symmetry; apply app_assoc | lia].
Qed.

(** Among the next [n] calls either none is faulted or one is the first. *)
Lemma first_fault n w :
  quiet n w
  \/ exists k e, k < n /\ quiet k w /\ faults w (ticks w + k) = Some e.
Proof.
  induction n as [|n [Q | (k & e & L & Q & F)]].
  - left. apply quiet_0.
  - destruct (faults w (ticks w + n)) as [e|] eqn:F.
    + right. exists n, e. auto.
    + left. apply quiet_S; assumption.
  - right. exists k, e. auto.
Qed.

(** A fault at one of the five [print]s is raised there. *)
Lemma execute_workflow_fault q w n e :
  n < 5 -> quiet n w -> faults w (ticks w + n) = Some e ->
  execute_workflow q w = (Raises e, after (stdin w) (S n) (firstn n (progress q)) w).
Proof.
  intros L Hq Hf. start_at w. unfold execute_workflow, print.
  do 5 (destruct n as [|n]; [trace e Hq Hf; reflexivity|]). lia.
Qed.

Lemma single_shot_fault args w n e :
  n < 6 -> quiet n w -> faults w (ticks w + n) = Some e ->
  single_shot args w
  = (Raises e,
     after (stdin w) (S n)
       (firstn n (progress (join (u " ") args) ++ [result_line (join (u " ") args)])) w).
Proof.
  intros L Hq Hf. unfold single_shot. cbn zeta. unfold bind at 1.
  destruct (Nat.eq_dec n 5) as [->|N].
  - rewrite execute_workflow_quiet by exact Hq.
    unfold print, write. rewrite primitive_fault with (e := e) by fault_tac Hf.
    rewrite tick_after. reflexivity.
  - rewrite (execute_workflow_fault _ w n e ltac:(lia) Hq Hf).
    do 5 (destruct n as [|n]; [reflexivity|]). lia.
Qed.

(** X1.  Whatever goes wrong on the terminal, a run of [execute_workflow]
    ends in one of two ways.  Either none of its five [print]s is faulted:
    it wrote its five lines and returns the dictionary.  Or it raises the
    first fault that hits one of them, having written the lines before that
    one and nothing after.  In both cases it made no other call and read
    nothing; in particular the two lookups in the dictionary never raise. *)
Theorem execute_workflow_first_fault (q : str) (w : world) r w' :
  execute_workflow q w = (r, w') ->
  (r = Returns (workflow_result q) /\ quiet 5 w /\ w' = after (stdin w) 5 (progress q) w)
  \/ (exists n e, n < 5 /\ quiet n w /\ faults w (ticks w + n) = Some e /\ r = Raises e
                  /\ w' = after (stdin w) (S n) (firstn n (progress q)) w).
Proof.
  intros E. destruct (first_fault 5 w) as [Q | (n & e & L & Q & F)].
  - rewrite (execute_workflow_quiet q w Q) in E. injection E as <- <-. left. auto.
  - rewrite (execute_workflow_fault q w n e L Q F) in E. injection E as <- <-.
    right. exists n, e. auto.
Qed.

(** X2.  In single-shot mode nothing is caught: a fault at any of the six
    [print]s of the run (the five progress lines, the result) ends the
    program there.  The lines before it were written, the result line was
    not, and the process ends with a traceback of the exception (with the
    status of a [SystemExit]). *)
Theorem single_shot_fault_ends_run
    (prog a : str) (rest : list str) (w : world) (n : nat) (e : exn) :
  ~ In a [u "--interactive"; u "-i"] ->
  n < 6 -> quiet n w -> faults w (ticks w + n) = Some e ->
  let query := join (u " ") (a :: rest) in
  script (prog :: a :: rest) w
  ≈ Ret (exit_of (Raises e),
         after (stdin w) (S n) (firstn n (progress query ++ [result_line query])) w).
Proof.
  intros F L Hq Hf query.
  apply (script_ret _ _ (Raises e)).
  rewrite (main_single_shot prog a rest w (not_flag a F)).
  rewrite (single_shot_fault (a :: rest) w n e L Hq Hf). reflexivity.
Qed.

End RunnerFaults.

(** ** Lines and their padding                                            *)

Section Padding.

Lemma lstrip_pad a s : forallb isspace a = true -> lstrip (a ++ s) = lstrip s.
Proof.
  induction a as [|c a IH]; cbn [app forallb lstrip]; [reflexivity|].
  intros H. apply andb_prop in H as [-> Ha]. auto.
Qed.

Lemma lstrip_app s b : lstrip s <> [] -> lstrip (s ++ b) = lstrip s ++ b.
Proof.
  induction s as [|c s IH]; cbn [app lstrip]; [congruence|].
  destruct (isspace c); [exact IH | reflexivity].
Qed.

Lemma forallb_rev {A} (f : A -> bool) l :
  forallb f l = true -> forallb f (rev l) = true.
Proof.
  intros H. apply forallb_rev_true. rewrite rev_involutive. exact H.
Qed.

Lemma rstrip_pad s b : forallb isspace b = true -> rstrip (s ++ b) = rstrip s.
Proof.
  intros H. unfold rstrip. rewrite rev_app_distr.
  rewrite lstrip_pad by (apply forallb_rev, H). reflexivity.
Qed.

(** Whitespace around a line does not survive [strip]. *)
Lemma strip_pad a s b :
  forallb isspace a = true -> forallb isspace b = true ->
  strip (a ++ s ++ b) = strip s.
Proof.
  intros Ha Hb. unfold strip. rewrite lstrip_pad by exact Ha.
  destruct (lstrip s) as [|c t] eqn:E.
  - rewrite lstrip_pad; [|apply lstrip_nil_spaces, E].
    rewrite (lstrip_spaces b Hb). reflexivity.
  - rewrite lstrip_app by (rewrite E; discriminate).
    rewrite E. apply rstrip_pad, Hb.
Qed.

End Padding.

Section Lines.
Context {RT : Runtime}.

Lemma not_quit line :
  ~ says_quit line -> mem (lower unicode_lower (strip line)) quit_words = false.
Proof.
  intros N. destruct (mem _ _) eqn:M; [|reflexivity]. apply mem_In in M. contradiction.
Qed.

(** One iteration on a line that is not a quit word. *)
Lemma iteration_line w line rest :
  stdin w = line :: rest -> ~ says_quit line -> quiet (line_calls line) w ->
  iteration w
  = (Returns Continue, after rest (line_calls line) (line_output (clock w) (ticks w) line) w).
Proof.
  intros E N H. apply not_quit in N. apply iteration_returns.
  unfold line_calls, line_output in *.
  destruct (strip line) as [|c q] eqn:S.
  - apply guarded_empty with (line := line); assumption.
  - rewrite <- S in *. rewrite guarded_query with (line := line) (rest := rest);
      [|assumption|assumption|rewrite S; discriminate|assumption].
    reflexivity.
Qed.

(** X3.  A line that is neither a quit word nor blank is a query: the
    query runner gets the line without the whitespace around it, its case
    kept, and the iteration writes the prompt, the five progress lines and
    the time between its two clock readings, in ten primitive calls. *)
Theorem query_line_processed (w : world) (line : str) (rest : list str) :
  stdin w = line :: rest -> ~ says_quit line -> strip line <> [] -> quiet 10 w ->
  iteration w
  = (Returns Continue,
     after rest 10
       (prompt :: progress (strip line)
          ++ [timing_line (float_sub (clock w (9 + ticks w)) (clock w (3 + ticks w)))])
       w).
Proof.
  intros E Q S H. apply iteration_returns, guarded_query; auto.
  apply not_quit, Q.
Qed.

(** X4.  Whitespace typed before or after a line changes nothing: once the
    prompt was written and the line read, the iteration does with the padded
    line exactly what it does with the line itself, whatever happens then. *)
Theorem padding_is_ignored (w : world) (a line b : str) (rest : list str) :
  forallb isspace a = true -> forallb isspace b = true -> quiet 2 w ->
  iteration (feed ((a ++ line ++ b) :: rest) w) = iteration (feed (line :: rest) w).
Proof.
  intros Ha Hb H.
  assert (G : forall l, guarded (feed (l :: rest) w)
                        = (fun query =>
                             if mem (lower unicode_lower query) quit_words
                             then bind (print (nl ++ u "👋 Goodbye!")) (fun _ => ret Break)
                             else if match query with [] => true | _ => false end
                                  then ret Continue else process query)
                            (strip l) (after rest 2 [prompt] w)).
  { intros l.
    replace (feed (l :: rest) w) with (after (l :: rest) 0 [] w)
      by (destruct w; unfold after, feed; cbn; rewrite app_nil_r; reflexivity).
    unfold guarded. rewrite bind_input by exact H. reflexivity. }
  unfold iteration, try_except. rewrite !G, strip_pad by assumption. reflexivity.
Qed.

(** X5.  On a terminal where nothing goes wrong, a line is skipped in
    silence (the prompt written, the line read, nothing else) exactly when
    it holds nothing but whitespace. *)
Theorem skipped_iff_blank (w : world) (line : str) (rest : list str) :
  stdin w = line :: rest -> quiet 10 w ->
  (iteration w = (Returns Continue, after rest 2 [prompt] w)
   <-> forallb isspace line = true).
Proof.
  intros E H. split.
  - intros I. apply strip_nil_iff.
    destruct (strip line) as [|c q] eqn:S; [reflexivity|]. exfalso.
    destruct (mem (lower unicode_lower (strip line)) quit_words) eqn:M.
    + rewrite (iteration_returns _ _ _
                 (guarded_quit w line rest E M ltac:(intros k Hk; apply H; lia))) in I.
      discriminate I.
    + rewrite (iteration_returns _ _ _
                 (guarded_query w line rest E M ltac:(rewrite S; discriminate) H)) in I.
      apply (f_equal (fun p => ticks (snd p))) in I. cbn in I. lia.
  - intros B. apply strip_nil_iff in B.
    apply iteration_returns, guarded_empty with (line := line); auto.
    intros k Hk. apply H. lia.
Qed.

(** X6.  A quit word whose farewell cannot be written does not end the
    loop.  The [print] comes before the [break]: when it raises an
    [Exception], the generic clause reports the error and the loop goes on
    to the next line. *)
Theorem farewell_error_keeps_loop_going
    (w : world) (line : str) (rest : list str) (cls message : str) :
  stdin w = line :: rest -> says_quit line -> quiet 2 w ->
  faults w (ticks w + 2) = Some (PyException cls message) ->
  faults w (ticks w + 3) = None ->
  iteration w = (Returns Continue, after rest 4 [prompt; error_line message] w)
  /\ while_true iteration w
     ≈ while_true iteration (after rest 4 [prompt; error_line message] w).
Proof.
  intros E Q H F2 F3. apply mem_In in Q.
  assert (G : guarded w = (Raises (PyException cls message), after rest 3 [prompt] w)).
  { rewrite (guarded_start w line rest E) at 1. unfold guarded.
    rewrite bind_input by exact H.
    cbn beta zeta. unfold quit_words. rewrite Q. unfold print.
    rewrite bind_write_fault with (e := PyException cls message) by fault_tac F2.
    rewrite tick_after. reflexivity. }
  assert (I : iteration w = (Returns Continue, after rest 4 [prompt; error_line message] w)).
  { unfold iteration. erewrite try_except_raises by (exact G || reflexivity).
    unfold print. rewrite bind_write by fault_tac F3.
    rewrite tick_after, emit_after. reflexivity. }
  split; [exact I | apply while_true_continue, I].
Qed.

(** X7.  What an [except] clause raises is not caught.  When the body of
    the [try] raised and the [print] of the clause that handles it is
    faulted, the iteration raises that fault: nothing more is written, the
    loop ends with the exception. *)
Theorem fault_in_except_clause_escapes (w w1 : world) (e0 e : exn) :
  guarded w = (Raises e0, w1) ->
  (forall code, e0 <> SystemExit code) ->
  faults w1 (ticks w1) = Some e ->
  iteration w = (Raises e, tick w1)
  /\ stdout (tick w1) = stdout w1
  /\ while_true iteration w ≈ Ret (Raises e, tick w1).
Proof.
  intros G N F.
  assert (I : iteration w = (Raises e, tick w1)).
  { unfold iteration, try_except. rewrite G.
    destruct e0 as [|code|cls msg]; cbn [handlers].
    - unfold print. apply bind_write_fault, F.
    - destruct (N code eq_refl).
    - unfold print. apply bind_write_fault, F. }
  split; [exact I | split; [reflexivity | apply while_true_raise, I]].
Qed.

End Lines.

(** ** The footprint of an iteration                                      *)

(** Closes a footprint goal once the lines read and the items written are
    named. *)
Ltac footprint read outs :=
  cbn [stdin stdout ticks faults clock tick emit feed];
  split; [exists read; split; [first [reflexivity | eassumption | symmetry; eassumption]
                              | cbn [List.length]; lia]|];
  split; [exists outs; split; [first [reflexivity | symmetry; apply app_nil_r]
                              | cbn [List.length]; lia]|];
  repeat split; lia.

Section Within.
Context {RT : Runtime}.

Lemma within_still {A} (m : py A) :
  (forall w, exists r, m w = (r, w)) -> within 0 0 m.
Proof.
  intros H w r w' E. destruct (H w) as (r0 & E0). rewrite E0 in E.
  injection E as <- <-. footprint (@nil str) (@nil output).
Qed.

Lemma within_ret {A} (a : A) : within 0 0 (ret a).
Proof. apply within_still. intros w. eexists. reflexivity. Qed.

Lemma within_getitem d k : within 0 0 (getitem d k).
Proof.
  apply within_still. intros w. unfold getitem.
  destruct d as [s|n|items]; [| |destruct (lookup k items)]; eexists; reflexivity.
Qed.

Lemma within_weaken {A} c r c' r' (m : py A) :
  c <= c' -> r <= r' -> within c r m -> within c' r' m.
Proof.
  intros Lc Lr H w x w' E.
  destruct (H w x w' E) as ((read & S & Ls) & O & T & F).
  split; [exists read; split; [exact S | lia]|].
  split; [exact O|]. split; [lia | exact F].
Qed.

Lemma within_seq {A B} c1 r1 c2 r2 (m : py A) w x w1 (k : py B) y w2 :
  within c1 r1 m -> within c2 r2 k ->
  m w = (x, w1) -> k w1 = (y, w2) ->
  (exists read, stdin w = read ++ stdin w2 /\ List.length read <= r1 + r2)
  /\ (exists outs, stdout w2 = stdout w ++ outs
                   /\ List.length outs <= ticks w2 - ticks w)
  /\ ticks w <= ticks w2 <= (c1 + c2) + ticks w
  /\ faults w2 = faults w /\ clock w2 = clock w.
Proof.
  intros Hm Hk Em Ek.
  destruct (Hm w x w1 Em) as ((read1 & S1 & L1) & (outs1 & O1 & M1) & T1 & F1 & C1).
  destruct (Hk w1 y w2 Ek) as ((read2 & S2 & L2) & (outs2 & O2 & M2) & T2 & F2 & C2).
  split; [exists (read1 ++ read2); split;
          [rewrite S1, S2; apply app_assoc | rewrite length_app; lia]|].
  split; [exists (outs1 ++ outs2); split;
          [rewrite O2, O1; symmetry; apply app_assoc | rewrite length_app; lia]|].
  split; [lia|]. split; congruence.
Qed.

Lemma within_bind {A B} c1 r1 c2 r2 (m : py A) (k : A -> py B) :
  within c1 r1 m -> (forall a, within c2 r2 (k a)) ->
  within (c1 + c2) (r1 + r2) (bind m k).
Proof.
  intros Hm Hk w y w2. unfold bind.
  destruct (m w) as [[a|e] w1] eqn:Em.
  - intros Ek. exact (within_seq c1 r1 c2 r2 m w _ w1 (k a) y w2 Hm (Hk a) Em Ek).
  - intros [= <- <-].
    exact (within_weaken c1 r1 (c1 + c2) (r1 + r2) m ltac:(lia) ltac:(lia) Hm
             w (Raises e) w1 Em).
Qed.

Lemma within_try {A} c1 r1 c2 r2 (body : py A) (clauses : exn -> option (py A)) :
  within c1 r1 body ->
  (forall e h, clauses e = Some h -> within c2 r2 h) ->
  within (c1 + c2) (r1 + r2) (try_except body clauses).
Proof.
  intros Hb Hh w y w2. unfold try_except.
  destruct (body w) as [[a|e] w1] eqn:Eb.
  - intros [= <- <-].
    exact (within_weaken c1 r1 (c1 + c2) (r1 + r2) body ltac:(lia) ltac:(lia) Hb
             w (Returns a) w1 Eb).
  - destruct (clauses e) as [h|] eqn:Eh.
    + intros Ek.
      exact (within_seq c1 r1 c2 r2 body w _ w1 h y w2 Hb (Hh e h Eh) Eb Ek).
    + intros [= <- <-].
      exact (within_weaken c1 r1 (c1 + c2) (r1 + r2) body ltac:(lia) ltac:(lia) Hb
               w (Raises e) w1 Eb).
Qed.

Lemma within_write o : within 1 0 (write o).
Proof.
  intros w r w'. unfold write, primitive.
  destruct (faults w (ticks w)) as [e|] eqn:F; intros [= <- <-].
  - footprint (@nil str) (@nil output).
  - footprint (@nil str) [o].
Qed.

Lemma within_time : within 1 0 time_time.
Proof.
  intros w r w'. unfold time_time, primitive.
  destruct (faults w (ticks w)) as [e|] eqn:F; intros [= <- <-];
    footprint (@nil str) (@nil output).
Qed.

Lemma within_readline : within 1 1 readline.
Proof.
  intros w r w'. unfold readline, primitive.
  destruct (faults w (ticks w)) as [e|] eqn:F.
  - intros [= <- <-]. footprint (@nil str) (@nil output).
  - cbn [stdin tick]. destruct (stdin w) as [|line rest] eqn:S; intros [= <- <-].
    + footprint (@nil str) (@nil output).
    + footprint [line] (@nil output).
Qed.

Lemma within_print s : within 1 0 (print s).
Proof. apply within_write. Qed.

Lemma within_execute_workflow q : within 5 0 (execute_workflow q).
Proof.
  unfold execute_workflow.
  apply (within_bind 1 0 4 0); [apply within_print | intros _].
  apply (within_bind 1 0 3 0); [apply within_print | intros _].
  apply (within_bind 1 0 2 0); [apply within_print | intros _].
  apply (within_bind 0 0 2 0); [apply within_getitem | intros n].
  apply (within_bind 1 0 1 0); [apply within_print | intros _].
  apply (within_bind 0 0 1 0); [apply within_getitem | intros m].
  apply (within_bind 1 0 0 0); [apply within_print | intros _].
  apply within_ret.
Qed.

Lemma within_process q : within 8 0 (process q).
Proof.
  unfold process.
  apply (within_bind 1 0 7 0); [apply within_time | intros t0].
  apply (within_bind 5 0 2 0); [apply within_execute_workflow | intros result].
  apply (within_bind 1 0 1 0); [apply within_time | intros t1].
  apply (within_bind 1 0 0 0); [apply within_print | intros _].
  apply within_ret.
Qed.

(** What follows the read: the farewell, nothing, or the query. *)
Lemma within_dispatch query :
  within 8 0
    (if mem (lower unicode_lower query) quit_words
     then bind (print (nl ++ u "👋 Goodbye!")) (fun _ => ret Break)
     else if match query with [] => true | _ :: _ => false end
          then ret Continue
          else process query).
Proof.
  destruct (mem _ _).
  - apply (within_weaken 1 0); [lia | lia |].
    apply (within_bind 1 0 0 0); [apply within_print | intros _; apply within_ret].
  - destruct query.
    + apply (within_weaken 0 0); [lia | lia | apply within_ret].
    + apply within_process.
Qed.

Lemma within_guarded : within 10 1 guarded.
Proof.
  unfold guarded, input.
  apply (within_bind 2 1 8 0).
  - apply (within_bind 1 0 1 1); [apply within_write | intros _; apply within_readline].
  - intros line. apply within_dispatch.
Qed.

(** The prompt is always attempted: the body of the [try] makes at least
    one call. *)
Lemma guarded_advances w x w1 : guarded w = (x, w1) -> ticks w < ticks w1.
Proof.
  unfold guarded, input. rewrite bind_bind. unfold bind at 1, write, primitive.
  destruct (faults w (ticks w)) as [e|].
  - intros [= <- <-]. cbn. lia.
  - intros E.
    assert (W : within 9 1
                  (bind readline (fun line =>
                     if mem (lower unicode_lower (strip line)) quit_words
                     then bind (print (nl ++ u "👋 Goodbye!")) (fun _ => ret Break)
                     else if match strip line with [] => true | _ :: _ => false end
                          then ret Continue
                          else process (strip line)))).
    { apply (within_bind 1 1 8 0); [apply within_readline|].
      intros line. apply within_dispatch. }
    destruct (W _ _ _ E) as (_ & _ & T & _). cbn in T. lia.
Qed.

Lemma within_handlers e h : handlers e = Some h -> within 1 0 h.
Proof.
  destruct e as [|code|cls message]; cbn [handlers]; intros [= <-];
    (apply (within_bind 1 0 0 0); [apply within_print | intros _; apply within_ret]).
Qed.

Lemma within_iteration : within 11 1 iteration.
Proof.
  unfold iteration.
  apply (within_try 10 1 1 0); [apply within_guarded | apply within_handlers].
Qed.

(** X8.  Whatever the input and whatever goes wrong, one iteration of the
    loop takes at most one line from the input, the first one; it makes at
    least one primitive call and at most eleven (ten in the body of the
    [try], one in an [except] clause); it only adds to what was written, at
    most one item per call. *)
Theorem iteration_footprint (w : world) (r : outcome flow) (w' : world) :
  iteration w = (r, w') ->
  (stdin w' = stdin w \/ exists line, stdin w = line :: stdin w')
  /\ (exists outs, stdout w' = stdout w ++ outs
                   /\ List.length outs <= ticks w' - ticks w)
  /\ ticks w < ticks w' <= 11 + ticks w
  /\ faults w' = faults w /\ clock w' = clock w.
Proof.
  intros E.
  destruct (within_iteration w r w' E) as ((read & S & L) & O & T & F).
  split; [|split; [exact O | split; [|exact F]]].
  - destruct read as [|line [|l2 read]]; cbn in L, S; [left; auto | right; eauto | lia].
  - split; [|lia].
    revert E. unfold iteration, try_except.
    destruct (guarded w) as [[f|e] w1] eqn:G;
      pose proof (guarded_advances w _ w1 G) as A.
    + intros [= <- <-]. exact A.
    + destruct (handlers e) as [h|] eqn:Hh.
      * intros E. destruct (within_handlers e h Hh _ _ _ E) as (_ & _ & T' & _). lia.
      * intros [= <- <-]. exact A.
Qed.

End Within.

(** ** Whole sessions                                                     *)

Section WholeSessions.
Context {RT : Runtime}.

(** The lines before a quit word, one iteration each. *)
Lemma session_prefix lines :
  forall w rest,
    stdin w = lines ++ rest ->
    Forall (fun line => ~ says_quit line) lines ->
    quiet (session_calls lines) w ->
    while_true iteration w
    ≈ while_true iteration
        (after rest (session_calls lines) (transcript (clock w) (ticks w) lines) w).
Proof.
  induction lines as [|line lines IH]; intros w rest E N H.
  - cbn in *. rewrite <- E, after_0. reflexivity.
  - inversion N as [|? ? Nl Ns]; subst.
    cbn [session_calls transcript] in *.
    destruct (quiet_split _ _ w (lines ++ rest) (line_output (clock w) (ticks w) line) H)
      as (H1 & H2).
    rewrite (while_true_continue iteration w _ (iteration_line w line _ E Nl H1)).
    rewrite (IH (after (lines ++ rest) (line_calls line)
                   (line_output (clock w) (ticks w) line) w) rest eq_refl Ns H2).
    rewrite after_after. reflexivity.
Qed.

Lemma banner_quiet w :
  quiet 5 w -> banner w = (Returns tt, after (stdin w) 5 banner_lines w).
Proof.
  intros H. rewrite <- (after_0 w) at 1. unfold banner, print.
  do 4 (rewrite bind_write by quiet_tac H; rewrite tick_after, emit_after).
  unfold write. rewrite primitive_ok by quiet_tac H.
  rewrite tick_after, emit_after. reflexivity.
Qed.

Lemma main_interactive prog flag more w :
  In flag [u "--interactive"; u "-i"] -> main (prog :: flag :: more) w = interactive_mode w.
Proof.
  intros I. apply mem_In in I.
  unfold main. cbn [List.length Nat.ltb Nat.leb nth]. rewrite I. reflexivity.
Qed.

Lemma interactive_mode_quiet w :
  quiet 5 w ->
  interactive_mode w = while_true iteration (after (stdin w) 5 banner_lines w).
Proof.
  intros H. unfold interactive_mode, andthen. rewrite (banner_quiet w H). reflexivity.
Qed.

(** X9.  A whole interactive session.  Started with either flag as its
    first argument (what follows the flag is ignored), on a terminal where
    nothing goes wrong and where queries and blank lines are typed and then a
    quit word, the program writes the banner, answers every line in turn
    (the prompt alone for a blank line; the prompt, the five progress lines
    and the timing for a query), writes the prompt and the farewell for the
    quit word and ends with status 0, leaving unread what was typed after
    the quit word. *)
Theorem interactive_session
    (prog flag : str) (more lines : list str) (quit_line : str) (rest : list str)
    (w : world) :
  In flag [u "--interactive"; u "-i"] ->
  stdin w = lines ++ quit_line :: rest ->
  Forall (fun line => ~ says_quit line) lines ->
  says_quit quit_line ->
  quiet (5 + (session_calls lines + 3)) w ->
  script (prog :: flag :: more) w
  ≈ Ret (Exit 0,
         after rest (5 + (session_calls lines + 3))
           (banner_lines ++ transcript (clock w) (5 + ticks w) lines ++ [prompt; goodbye])
           w).
Proof.
  intros F E N Q H.
  destruct (quiet_split 5 _ w (stdin w) banner_lines H) as (H5 & H').
  set (w1 := after (stdin w) 5 banner_lines w) in *.
  destruct (quiet_split (session_calls lines) 3 w1 (quit_line :: rest)
              (transcript (clock w1) (ticks w1) lines) H') as (Hs & Hq).
  set (w2 := after (quit_line :: rest) (session_calls lines)
               (transcript (clock w1) (ticks w1) lines) w1) in *.
  apply mem_In in Q.
  pose proof (iteration_returns _ _ _ (guarded_quit w2 quit_line rest eq_refl Q Hq)) as I.
  unfold script. rewrite (main_interactive prog flag more w F).
  rewrite (interactive_mode_quiet w H5). fold w1.
  rewrite (session_prefix lines w1 (quit_line :: rest) E N Hs). fold w2.
  rewrite (while_true_break iteration w2 _ I), map_ret.
  unfold w2, w1. rewrite !after_after. cbn [fst snd exit_of].
  reflexivity.
Qed.


(** What holds of every way the loop ends: an invariant of the worlds the
    iterations start in, and what leaving the loop establishes. *)
Lemma while_true_invariant (body : py flow) (Inv : world -> Prop)
    (Post : outcome unit * world -> Prop) :
  (forall w w1, Inv w -> body w = (Returns Continue, w1) -> Inv w1) ->
  (forall w w1, Inv w -> body w = (Returns Break, w1) -> Post (Returns tt, w1)) ->
  (forall w e w1, Inv w -> body w = (Raises e, w1) -> Post (Raises e, w1)) ->
  forall w x, Inv w -> while_true body w ≈ Ret x -> Post x.
Proof.
  intros Hc Hb Hr w x I T.
  assert (EU : eutt (fun a b => a = b /\ Post a) (while_true body w) (while_true body w)).
  { unfold while_true.
    apply eutt_iter' with (RI := fun a b => a = b /\ Inv a); [|split; auto].
    intros j1 j2 [<- Ij].
    destruct (body j1) as [[[|]|e] w1] eqn:B; apply eqit_Ret; constructor; eauto. }
  rewrite T in EU. apply eqit_inv_Ret in EU. apply EU.
Qed.

Lemma write_returns_inv o w w1 :
  write o w = (Returns tt, w1) -> stdout w1 = stdout w ++ [o].
Proof.
  unfold write, primitive. destruct (faults w (ticks w)); [discriminate|].
  intros [= <-]. reflexivity.
Qed.

Lemma farewell_break s w w' :
  bind (print s) (fun _ => ret Break) w = (Returns Break, w') ->
  stdout w' = stdout w ++ [Printed s].
Proof.
  intros E. apply bind_returns_inv in E as ([] & w2 & P & R).
  injection R as <-. apply write_returns_inv, P.
Qed.

(** An iteration that ends the loop has just written a farewell. *)
Lemma iteration_break_farewell w w' :
  iteration w = (Returns Break, w') -> ends_with_farewell (stdout w').
Proof.
  unfold iteration, try_except.
  destruct (guarded w) as [[f|e] w1] eqn:G.
  - intros [= -> <-]. unfold guarded in G.
    apply bind_returns_inv in G as (line & w0 & _ & E). cbv zeta in E.
    destruct (mem _ _).
    + exists (stdout w0). left. apply farewell_break, E.
    + destruct (strip line).
      * discriminate E.
      * exfalso. eapply process_never_breaks, E.
  - destruct e as [|code|cls message]; cbn [handlers].
    + intros E. exists (stdout w1). right. apply farewell_break, E.
    + discriminate.
    + intros E. apply bind_returns_inv in E as (? & ? & _ & E). discriminate.
Qed.

(** X11.  The interactive mode never returns in silence.  Whatever is
    typed and whatever goes wrong, when [interactive_mode] returns (rather
    than raising), the last thing it wrote is a farewell: the one of the
    quit word or the one of the interrupt. *)
Theorem normal_end_follows_farewell (w w' : world) :
  interactive_mode w ≈ Ret (Returns tt, w') -> ends_with_farewell (stdout w').
Proof.
  unfold interactive_mode, andthen.
  destruct (banner w) as [[[]|e] w1].
  - intros T.
    apply (while_true_invariant iteration (fun _ => True)
             (fun x => fst x = Returns tt -> ends_with_farewell (stdout (snd x))))
      with (w := w1) (x := (Returns tt, w')); auto.
    + intros w0 w2 _ B _. apply (iteration_break_farewell w0 w2 B).
    + intros w0 e w2 _ _ D. discriminate D.
  - intros T. apply eutt_inv_Ret in T. discriminate T.
Qed.

Lemma banner_fault w n e :
  n < 5 -> quiet n w -> faults w (ticks w + n) = Some e ->
  banner w = (Raises e, after (stdin w) (S n) (firstn n banner_lines) w).
Proof.
  intros L Hq Hf. start_at w. unfold banner, print.
  do 4 (destruct n as [|n]; [trace e Hq Hf; reflexivity|]).
  destruct n as [|n]; [|lia].
  trace e Hq Hf. unfold write.
  rewrite primitive_fault with (e := e) by fault_tac Hf.
  rewrite tick_after. reflexivity.
Qed.

(** X14.  The banner is written outside the [try]: a fault at one of its
    five [print]s, an interrupt included, is not caught.  The interactive
    mode ends there with the exception, without prompt and without
    farewell, and nothing is read. *)
Theorem banner_fault_ends_session
    (prog flag : str) (more : list str) (w : world) (n : nat) (e : exn) :
  In flag [u "--interactive"; u "-i"] ->
  n < 5 -> quiet n w -> faults w (ticks w + n) = Some e ->
  script (prog :: flag :: more) w
  ≈ Ret (exit_of (Raises e), after (stdin w) (S n) (firstn n banner_lines) w).
Proof.
  intros F L Hq Hf.
  apply (script_ret _ _ (Raises e)).
  rewrite (main_interactive prog flag more w F).
  unfold interactive_mode, andthen.
  rewrite (banner_fault w n e L Hq Hf). reflexivity.
Qed.

End WholeSessions.

(** ** The printed JSON                                                    *)

Section PrintedJson.
Local Open Scope N_scope.

Lemma hex_digit_visible d : d < 16 -> visible (hex_digit d) = true.
Proof.
  intros H. unfold hex_digit, visible.
  destruct (N.ltb_spec d 10); apply andb_true_intro; split; apply N.leb_le; lia.
Qed.

Lemma hex_digits_visible k : forall n, forallb visible (hex_digits k n) = true.
Proof.
  induction k as [|k IH]; intros n; cbn [hex_digits]; [reflexivity|].
  rewrite forallb_app, IH. cbn [forallb].
  rewrite hex_digit_visible; [reflexivity|]. apply N.mod_lt. discriminate.
Qed.

Lemma unit_escape_visible n : forallb visible (backslash :: u "u" ++ format_04x n) = true.
Proof.
  change (backslash :: u "u" ++ format_04x n) with ([backslash; 0x75] ++ format_04x n).
  rewrite forallb_app. unfold format_04x. rewrite hex_digits_visible. reflexivity.
Qed.

(** Every character is escaped into visible ASCII. *)
Lemma escape_char_visible c : forallb visible (escape_char c) = true.
Proof.
  unfold escape_char.
  repeat (match goal with
          | |- context [if (c =? ?k) then _ else _] => destruct (c =? k); [reflexivity|]
          end).
  destruct ((0x20 <=? c) && (c <=? 0x7E)) eqn:V.
  { cbn [forallb]. unfold visible. rewrite V. reflexivity. }
  destruct (c <? 0x10000); [apply unit_escape_visible|].
  cbv zeta.
  match goal with
  | |- forallb visible (backslash :: u "u" ++ format_04x ?a ++ ?b) = true =>
    change (backslash :: u "u" ++ format_04x a ++ b)
      with (([backslash; 0x75] ++ format_04x a) ++ b)
  end.
  rewrite forallb_app. rewrite unit_escape_visible.
  change ([backslash; 0x75] ++ format_04x ?a) with (backslash :: u "u" ++ format_04x a).
  rewrite unit_escape_visible. reflexivity.
Qed.

Lemma escaped_visible q : forallb visible (flat_map escape_char q) = true.
Proof.
  induction q as [|c q IH]; [reflexivity|].
  cbn [flat_map]. rewrite forallb_app, escape_char_visible, IH. reflexivity.
Qed.

Lemma visible_plain s : forallb visible s = true -> forallb plain s = true.
Proof.
  induction s as [|c s IH]; [reflexivity|]. cbn [forallb].
  intros H. apply andb_prop in H as [V H].
  rewrite (IH H). unfold plain. rewrite V, orb_true_r. reflexivity.
Qed.

Lemma visible_no_newline s : forallb visible s = true -> newlines s = 0%nat.
Proof.
  unfold newlines.
  induction s as [|c s IH]; [reflexivity|]. cbn [forallb count_occ].
  intros H. apply andb_prop in H as [V H].
  destruct (N.eq_dec c 10) as [->|_]; [discriminate V | exact (IH H)].
Qed.

Lemma newlines_app a b : newlines (a ++ b) = (newlines a + newlines b)%nat.
Proof. apply count_occ_app. Qed.

Lemma recombine_no_high q : no_high_surrogate q -> recombine q = q.
Proof.
  induction 1 as [|c q H _ IH]; [reflexivity|].
  cbn [recombine]. rewrite H, IH. reflexivity.
Qed.

(** X12.  The JSON text the single-shot mode prints reads back as the
    dictionary it was made from: for a query of Unicode code points of
    which none is the first half of a surrogate pair, a JSON decoder gives
    the five members in their order, the query unchanged, character for
    character. *)
Theorem printed_json_reads_back (q : str) :
  wf_str q -> no_high_surrogate q ->
  loads (dumps (workflow_result q) 2) = Some (to_json (workflow_result q)).
Proof.
  intros W H. rewrite dumps_result_text, (loads_result_text q W).
  rewrite (recombine_no_high q H). reflexivity.
Qed.

(** X13.  Whatever the query, the JSON text that is printed holds only
    visible ASCII characters and newlines, and it has nine lines (eight
    newlines): a newline, a control character or a character outside ASCII
    in the query is escaped and never breaks the layout. *)
Theorem printed_json_is_plain (q : str) :
  forallb plain (dumps (workflow_result q) 2) = true
  /\ newlines (dumps (workflow_result q) 2) = 8%nat.
Proof.
  rewrite dumps_result_text. unfold result_text, encode_basestring_ascii.
  pose proof (escaped_visible q) as V. revert V.
  generalize (flat_map escape_char q). intros e V.
  cbn [join].
  split.
  - rewrite !forallb_app, (visible_plain e V). reflexivity.
  - rewrite !newlines_app, (visible_no_newline e V). reflexivity.
Qed.

End PrintedJson.

(* ===================================================================== *)
(** * Concrete runs of these properties                                   *)
(* ===================================================================== *)

Lemma execute_workflow_first_fault_witness :
  execute_workflow (u "hi") Runs.piped
  = (Raises Runs.broken_pipe, after [] 3 (firstn 2 (progress (u "hi"))) Runs.piped)
  /\ exists n e,
       n < 5 /\ quiet n Runs.piped
       /\ faults Runs.piped (ticks Runs.piped + n) = Some e
       /\ Raises (A := pyval) Runs.broken_pipe = Raises e
       /\ after [] 3 (firstn 2 (progress (u "hi"))) Runs.piped
          = after (stdin Runs.piped) (S n) (firstn n (progress (u "hi"))) Runs.piped.
Proof.
  assert (E : execute_workflow (u "hi") Runs.piped
              = (Raises Runs.broken_pipe,
                 after [] 3 (firstn 2 (progress (u "hi"))) Runs.piped)) by reflexivity.
  split; [exact E|].
  destruct (execute_workflow_first_fault (u "hi") Runs.piped _ _ E)
    as [(R & _) | X]; [discriminate R | exact X].
Defined.

Lemma single_shot_fault_ends_run_witness :
  ~ In (u "hi") [u "--interactive"; u "-i"]
  /\ 2 < 6 /\ quiet 2 Runs.piped
  /\ faults Runs.piped (ticks Runs.piped + 2) = Some Runs.broken_pipe
  /\ script [Demo.prog; u "hi"] Runs.piped
     ≈ Ret (Traceback Runs.broken_pipe,
            after [] 3 (firstn 2 (progress (u "hi") ++ [result_line (u "hi")])) Runs.piped).
Proof.
  assert (F : ~ In (u "hi") [u "--interactive"; u "-i"]).
  { intros [E | [E | []]]; discriminate E. }
  assert (H : quiet 2 Runs.piped) by (apply terminal_quiet; lia).
  split; [exact F | split; [lia | split; [exact H | split; [reflexivity|]]]].
  exact (single_shot_fault_ends_run Demo.prog (u "hi") [] Runs.piped 2 Runs.broken_pipe
           F ltac:(lia) H eq_refl).
Defined.

Lemma query_line_processed_witness :
  stdin Runs.asking = u "  What is RAG?  " :: [u "quit"]
  /\ ~ says_quit (RT := Demo.runtime) (u "  What is RAG?  ")
  /\ strip (u "  What is RAG?  ") <> []
  /\ quiet 10 Runs.asking
  /\ iteration Runs.asking
     = (Returns Continue,
        after [u "quit"] 10
          (prompt :: progress (u "What is RAG?") ++ [timing_line (RT := Demo.runtime) 42%Z])
          Runs.asking).
Proof.
  assert (Q : ~ says_quit (RT := Demo.runtime) (u "  What is RAG?  ")).
  { intros [E | [E | [E | []]]]; discriminate E. }
  assert (S : strip (u "  What is RAG?  ") <> []) by discriminate.
  split; [reflexivity | split; [exact Q | split; [exact S | split;
    [apply terminal_quiet_all|]]]].
  exact (query_line_processed Runs.asking (u "  What is RAG?  ") [u "quit"]
           eq_refl Q S (terminal_quiet_all 10 _)).
Defined.

Lemma padding_is_ignored_witness :
  forallb isspace (u "  ") = true /\ forallb isspace (u " ") = true
  /\ quiet 2 Demo.idle
  /\ iteration (feed ((u "  " ++ u "Hello" ++ u " ") :: []) Demo.idle)
     = iteration (feed (u "Hello" :: []) Demo.idle).
Proof.
  split; [reflexivity | split; [reflexivity | split; [apply terminal_quiet_all|]]].
  exact (padding_is_ignored Demo.idle (u "  ") (u "Hello") (u " ") []
           eq_refl eq_refl (terminal_quiet_all 2 _)).
Defined.

Lemma skipped_iff_blank_witness :
  stdin Demo.blank = u "   " :: [u "next"]
  /\ quiet 10 Demo.blank
  /\ (iteration Demo.blank = (Returns Continue, after [u "next"] 2 [prompt] Demo.blank)
      <-> forallb isspace (u "   ") = true).
Proof.
  split; [reflexivity | split; [apply terminal_quiet_all|]].
  exact (skipped_iff_blank Demo.blank (u "   ") [u "next"] eq_refl
           (terminal_quiet_all 10 _)).
Defined.

Lemma farewell_error_keeps_loop_going_witness :
  stdin Runs.unprintable = u "quit" :: [u "hello"]
  /\ says_quit (RT := Demo.runtime) (u "quit")
  /\ quiet 2 Runs.unprintable
  /\ faults Runs.unprintable (ticks Runs.unprintable + 2) = Some Demo.encoding_error
  /\ faults Runs.unprintable (ticks Runs.unprintable + 3) = None
  /\ iteration Runs.unprintable
     = (Returns Continue,
        after [u "hello"] 4
          [prompt; error_line (u "'ascii' codec can't encode character")]
          Runs.unprintable).
Proof.
  assert (Q : says_quit (RT := Demo.runtime) (u "quit")) by (left; reflexivity).
  assert (H : quiet 2 Runs.unprintable) by (apply terminal_quiet; lia).
  split; [reflexivity | split; [exact Q | split; [exact H | split;
    [reflexivity | split; [reflexivity|]]]]].
  exact (proj1 (farewell_error_keeps_loop_going Runs.unprintable (u "quit") [u "hello"]
                  (u "UnicodeEncodeError") (u "'ascii' codec can't encode character")
                  eq_refl Q H eq_refl eq_refl)).
Defined.

Lemma fault_in_except_clause_escapes_witness :
  guarded Demo.eof_interrupted = (Raises EOFError, after [] 2 [prompt] Demo.eof_interrupted)
  /\ (forall code, EOFError <> SystemExit code)
  /\ faults (after [] 2 [prompt] Demo.eof_interrupted)
       (ticks (after [] 2 [prompt] Demo.eof_interrupted)) = Some KeyboardInterrupt
  /\ iteration Demo.eof_interrupted
     = (Raises KeyboardInterrupt, tick (after [] 2 [prompt] Demo.eof_interrupted)).
Proof.
  assert (G : guarded Demo.eof_interrupted
              = (Raises EOFError, after [] 2 [prompt] Demo.eof_interrupted))
    by reflexivity.
  assert (N : forall code, EOFError <> SystemExit code) by (intros code; discriminate).
  split; [exact G | split; [exact N | split; [reflexivity|]]].
  exact (proj1 (fault_in_except_clause_escapes Demo.eof_interrupted _ EOFError
                  KeyboardInterrupt G N eq_refl)).
Defined.

Lemma iteration_footprint_witness :
  iteration Demo.blank = (Returns Continue, after [u "next"] 2 [prompt] Demo.blank)
  /\ (stdin (after [u "next"] 2 [prompt] Demo.blank) = stdin Demo.blank
      \/ exists line, stdin Demo.blank = line :: stdin (after [u "next"] 2 [prompt] Demo.blank))
  /\ ticks Demo.blank < ticks (after [u "next"] 2 [prompt] Demo.blank) <= 11 + ticks Demo.blank.
Proof.
  assert (I : iteration Demo.blank
              = (Returns Continue, after [u "next"] 2 [prompt] Demo.blank)) by reflexivity.
  split; [exact I|].
  destruct (iteration_footprint Demo.blank _ _ I) as (S & _ & T & _).
  split; assumption.
Defined.

Lemma interactive_session_witness :
  In (u "-i") [u "--interactive"; u "-i"]
  /\ stdin Runs.session = [u "hello"; u ""] ++ u " Quit " :: [u "later"]
  /\ Forall (fun line => ~ says_quit (RT := Demo.runtime) line) [u "hello"; u ""]
  /\ says_quit (RT := Demo.runtime) (u " Quit ")
  /\ quiet (5 + (session_calls [u "hello"; u ""] + 3)) Runs.session
  /\ script [Demo.prog; u "-i"] Runs.session
     ≈ Ret (Exit 0,
            after [u "later"] (5 + (session_calls [u "hello"; u ""] + 3))
              (banner_lines
                 ++ transcript (clock Runs.session) (5 + ticks Runs.session)
                      [u "hello"; u ""]
                 ++ [prompt; goodbye])
              Runs.session).
Proof.
  assert (F : In (u "-i") [u "--interactive"; u "-i"]) by (right; left; reflexivity).
  assert (N : Forall (fun line => ~ says_quit (RT := Demo.runtime) line) [u "hello"; u ""]).
  { repeat constructor; intros [E | [E | [E | []]]]; discriminate E. }
  assert (Q : says_quit (RT := Demo.runtime) (u " Quit ")) by (left; reflexivity).
  split; [exact F | split; [reflexivity | split; [exact N | split; [exact Q | split;
    [apply terminal_quiet_all|]]]]].
  exact (interactive_session Demo.prog (u "-i") [] [u "hello"; u ""] (u " Quit ")
           [u "later"] Runs.session F eq_refl N Q (terminal_quiet_all _ _)).
Defined.


Lemma normal_end_follows_farewell_witness :
  interactive_mode Demo.quitting
  ≈ Ret (Returns tt, after [u "more"] 8 (banner_lines ++ [prompt; goodbye]) Demo.quitting)
  /\ ends_with_farewell
       (stdout (after [u "more"] 8 (banner_lines ++ [prompt; goodbye]) Demo.quitting)).
Proof.
  assert (T : interactive_mode Demo.quitting
              ≈ Ret (Returns tt,
                     after [u "more"] 8 (banner_lines ++ [prompt; goodbye]) Demo.quitting)).
  { rewrite (interactive_mode_quiet Demo.quitting (terminal_quiet_all 5 _)).
    apply while_true_break. reflexivity. }
  split; [exact T|].
  exact (normal_end_follows_farewell Demo.quitting _ T).
Defined.

Lemma printed_json_reads_back_witness :
  wf_str (u "What is RAG? 🔍") /\ no_high_surrogate (u "What is RAG? 🔍")
  /\ loads (dumps (workflow_result (u "What is RAG? 🔍")) 2)
     = Some (to_json (workflow_result (u "What is RAG? 🔍"))).
Proof.
  assert (W : wf_str (u "What is RAG? 🔍")) by (repeat constructor).
  assert (H : no_high_surrogate (u "What is RAG? 🔍")) by (repeat constructor).
  split; [exact W | split; [exact H|]].
  exact (printed_json_reads_back (u "What is RAG? 🔍") W H).
Defined.

Lemma banner_fault_ends_session_witness :
  In (u "-i") [u "--interactive"; u "-i"]
  /\ 1 < 5 /\ quiet 1 Runs.startup_interrupted
  /\ faults Runs.startup_interrupted (ticks Runs.startup_interrupted + 1)
     = Some KeyboardInterrupt
  /\ script [Demo.prog; u "-i"] Runs.startup_interrupted
     ≈ Ret (Traceback KeyboardInterrupt,
            after [u "quit"] 2 [Printed (times (u "=") 60)] Runs.startup_interrupted).
Proof.
  assert (F : In (u "-i") [u "--interactive"; u "-i"]) by (right; left; reflexivity).
  assert (H : quiet 1 Runs.startup_interrupted) by (apply terminal_quiet; lia).
  split; [exact F | split; [lia | split; [exact H | split; [reflexivity|]]]].
  exact (banner_fault_ends_session Demo.prog (u "-i") [] Runs.startup_interrupted 1
           KeyboardInterrupt F ltac:(lia) H eq_refl).
Defined.
